(** * A todo-list front end (src/App.jsx): model and verified properties

    The React component [App] owns the collection of todos, the draft of the
    new title, the view filter, the loading flag and the error message, and
    synchronises the collection with a remote HTTP service.  The component
    [TodoRow] owns the inline editor of one row.

    The handlers of the source are [async] functions.  They are embedded
    here as terms of a small program type [Prog] whose constructors are the
    effects the handlers perform: calling a state setter, throwing, and
    awaiting [fetch].  [try_catch] and [try_finally] give [try]/[catch]/
    [finally] their meaning, and [exec] runs a program against an oracle that
    plays the remote service, recording every request that is issued. *)

From Stdlib Require Import List ZArith NArith Ascii String Lia.
From stdpp Require Import base decidable option list.

Set Default Proof Using "Type".

(* ===================================================================== *)
(** * JavaScript values used by the component *)
(* ===================================================================== *)

Module Js.

(** A JavaScript string is a sequence of UTF-16 code units. *)
Abbreviation jsstring := (list N).

(** A string literal of the source (all of them are ASCII). *)
Definition lit (s : string) : jsstring :=
  List.map N_of_ascii (list_ascii_of_string s).

(** ECMAScript [WhiteSpace]: TAB, VT, FF, ZWNBSP and the code points of
    Unicode category Zs (all of them in the basic plane). *)
Definition is_white_space (c : N) : bool :=
  (  (c =? 0x0009) || (c =? 0x000B) || (c =? 0x000C) || (c =? 0xFEFF)
  || (c =? 0x0020) || (c =? 0x00A0) || (c =? 0x1680)
  || ((0x2000 <=? c) && (c <=? 0x200A))
  || (c =? 0x202F) || (c =? 0x205F) || (c =? 0x3000))%N.

(** ECMAScript [LineTerminator]: LF, CR, LS, PS. *)
Definition is_line_terminator (c : N) : bool :=
  ((c =? 0x000A) || (c =? 0x000D) || (c =? 0x2028) || (c =? 0x2029))%N.

(** The code units [String.prototype.trim] strips. *)
Definition strippable (c : N) : bool :=
  is_white_space c || is_line_terminator c.

(** [String.prototype.trimStart]. *)
Fixpoint trimStart (s : jsstring) : jsstring :=
  match s with
  | [] => []
  | c :: s' => if strippable c then trimStart s' else s
  end.

(** [String.prototype.trimEnd]. *)
Definition trimEnd (s : jsstring) : jsstring :=
  rev (trimStart (rev s)).

(** [String.prototype.trim]: both ends. *)
Definition trim (s : jsstring) : jsstring :=
  trimEnd (trimStart s).

(** [ToBoolean] on a string: only the empty string is falsy, so [!s] is
    [negb (truthy s)]. *)
Definition truthy (s : jsstring) : bool :=
  match s with
  | [] => false
  | _ :: _ => true
  end.

(** The state a promise settles in; a rejection carries the [message] of
    the error it rejects with. *)
Inductive Settled (A : Type) : Type :=
| Fulfilled (a : A)
| Rejected (message : jsstring).
Arguments Fulfilled {A} a.
Arguments Rejected {A} message.

(** [Promise.all]: fulfilled with all the values when every promise is
    fulfilled, rejected as soon as one is rejected. *)
Fixpoint promise_all {A} (ps : list (Settled A)) : Settled (list A) :=
  match ps with
  | [] => Fulfilled []
  | Rejected m :: _ => Rejected m
  | Fulfilled a :: ps' =>
      match promise_all ps' with
      | Fulfilled l => Fulfilled (a :: l)
      | Rejected m => Rejected m
      end
  end.

End Js.
Import Js.

(* ===================================================================== *)
(** * Data model *)
(* ===================================================================== *)

(** Identifiers are assigned by the remote service and arrive as JSON:
    a number or a string.  [===] on two of them is plain equality. *)
Inductive TodoId : Type :=
| IdNum (n : Z)
| IdStr (s : jsstring).

#[global] Instance TodoId_eq_dec : EqDecision TodoId.
Proof. solve_decision. Defined.

(** [a === b] on identifiers. *)
Definition strict_eq (a b : TodoId) : bool := bool_decide (a = b).

Module Todo.

(** One item, with the three fields of the service's contract. *)
Record t : Type := mk { id : TodoId; title : jsstring; completed : bool }.

#[global] Instance eq_dec : EqDecision t.
Proof. solve_decision. Defined.

(** [{ ...t, completed }] *)
Definition with_completed (c : bool) (x : t) : t :=
  {| id := id x; title := title x; completed := c |}.

(** [{ ...t, title }] *)
Definition with_title (s : jsstring) (x : t) : t :=
  {| id := id x; title := s; completed := completed x |}.

End Todo.

(* ===================================================================== *)
(** * The remote service *)
(* ===================================================================== *)

(** The five requests the component issues (method, path, JSON body); the
    base URL is configuration and is the same for all of them. *)
Inductive Request : Type :=
| GET_todos
| POST_todo (title : jsstring)
| PATCH_completed (id : TodoId) (completed : bool)
| PATCH_title (id : TodoId) (title : jsstring)
| DELETE_todo (id : TodoId).

#[global] Instance Request_eq_dec : EqDecision Request.
Proof. solve_decision. Defined.

(** What [res.json()] yields for each request, by the service's contract.
    The bodies of PATCH and DELETE responses are never read. *)
Definition Body (r : Request) : Type :=
  match r with
  | GET_todos => list Todo.t
  | POST_todo _ => Todo.t
  | PATCH_completed _ _ | PATCH_title _ _ | DELETE_todo _ => unit
  end.

(** A [Response]: the [ok] flag (status in 200..299) and the outcome of
    parsing the body, which rejects when the body is not JSON. *)
Record Response (B : Type) : Type := mkResponse { ok : bool; json : Settled B }.
Arguments mkResponse {B} ok json.
Arguments ok {B} r.
Arguments json {B} r.

(** A response to some request, for the array [Promise.all] resolves to. *)
Definition AnyResponse : Type := { r : Request & Response (Body r) }.

(** The promise [fetch] returns: fulfilled with a response (whatever its
    status), rejected on a transport failure. *)
Definition FetchOutcome (r : Request) : Type := Settled (Response (Body r)).

Definition any_outcome (r : Request) (x : FetchOutcome r) : Settled AnyResponse :=
  match x with
  | Fulfilled res => Fulfilled (existT r res)
  | Rejected m => Rejected m
  end.

(* ===================================================================== *)
(** * The list controller: component [App] *)
(* ===================================================================== *)

Module App.

(** The view filter: ['all' | 'active' | 'completed']. *)
Inductive Filter : Type := All | Active | Completed.

(** The five [useState] cells of the component. *)
Record State : Type := mkState {
  todos : list Todo.t;
  newTitle : jsstring;
  filter : Filter;
  loading : bool;
  error : jsstring
}.

(** ** Derived values *)

(** [filtered] (the [useMemo] over [todos] and [filter]). *)
Definition filtered (s : State) : list Todo.t :=
  match filter s with
  | Active => List.filter (λ t, negb (Todo.completed t)) (todos s)
  | Completed => List.filter (λ t, Todo.completed t) (todos s)
  | All => todos s
  end.

(** [remaining]. *)
Definition remaining (s : State) : nat :=
  length (List.filter (λ t, negb (Todo.completed t)) (todos s)).

(** ** Programs: the effects of an [async] handler *)

Inductive Prog (A : Type) : Type :=
| Ret (a : A)
| Throw (message : jsstring)
| SetState (u : State → State) (k : Prog A)
| Fetch (r : Request) (k : FetchOutcome r → Prog A)
| FetchAll (rs : list Request) (k : Settled (list AnyResponse) → Prog A).
Arguments Ret {A} a.
Arguments Throw {A} message.
Arguments SetState {A} u k.
Arguments Fetch {A} r k.
Arguments FetchAll {A} rs k.

Fixpoint bind {A B} (p : Prog A) (f : A → Prog B) : Prog B :=
  match p with
  | Ret a => f a
  | Throw m => Throw m
  | SetState u k => SetState u (bind k f)
  | Fetch r k => Fetch r (λ x, bind (k x) f)
  | FetchAll rs k => FetchAll rs (λ x, bind (k x) f)
  end.

#[global] Instance Prog_ret : MRet Prog := λ A a, Ret a.
#[global] Instance Prog_bind : MBind Prog := λ A B f p, bind p f.

(** [try { p } catch (e) { h e.message }] *)
Fixpoint try_catch {A} (p : Prog A) (h : jsstring → Prog A) : Prog A :=
  match p with
  | Ret a => Ret a
  | Throw m => h m
  | SetState u k => SetState u (try_catch k h)
  | Fetch r k => Fetch r (λ x, try_catch (k x) h)
  | FetchAll rs k => FetchAll rs (λ x, try_catch (k x) h)
  end.

(** [try { p } finally { f }] *)
Fixpoint try_finally {A} (p : Prog A) (f : Prog unit) : Prog A :=
  match p with
  | Ret a => bind f (λ _, Ret a)
  | Throw m => bind f (λ _, Throw m)
  | SetState u k => SetState u (try_finally k f)
  | Fetch r k => Fetch r (λ x, try_finally (k x) f)
  | FetchAll rs k => FetchAll rs (λ x, try_finally (k x) f)
  end.

(** [await p] for a promise that has settled: a rejection is thrown at
    the [await]. *)
Definition await {A} (p : Settled A) : Prog A :=
  match p with
  | Fulfilled a => Ret a
  | Rejected m => Throw m
  end.

(** [await fetch(...)] *)
Definition fetch (r : Request) : Prog (Response (Body r)) :=
  Fetch r await.

(** [await Promise.all(rs.map(r => fetch(...)))] *)
Definition fetch_all (rs : list Request) : Prog (list AnyResponse) :=
  FetchAll rs await.

(** [throw new Error(message)] *)
Definition throw_Error {A} (message : jsstring) : Prog A := Throw message.

(** [if (c) p] *)
Definition when (c : bool) (p : Prog unit) : Prog unit :=
  if c then p else Ret tt.

(** The setters returned by [useState].  [setTodos] takes an updater
    [prev => ...]; a plain value [v] is the updater [λ _, v]. *)
Definition setTodos (f : list Todo.t → list Todo.t) : Prog unit :=
  SetState (λ s, mkState (f (todos s)) (newTitle s) (filter s) (loading s) (error s))
           (Ret tt).
Definition setNewTitle (v : jsstring) : Prog unit :=
  SetState (λ s, mkState (todos s) v (filter s) (loading s) (error s)) (Ret tt).
Definition setFilter (v : Filter) : Prog unit :=
  SetState (λ s, mkState (todos s) (newTitle s) v (loading s) (error s)) (Ret tt).
Definition setLoading (v : bool) : Prog unit :=
  SetState (λ s, mkState (todos s) (newTitle s) (filter s) v (error s)) (Ret tt).
Definition setError (v : jsstring) : Prog unit :=
  SetState (λ s, mkState (todos s) (newTitle s) (filter s) (loading s) v) (Ret tt).

(** ** The handlers *)

Definition fetchTodos : Prog unit :=
  setLoading true ;;
  setError (lit "") ;;
  try_finally
    (try_catch
       (res ← fetch GET_todos;
        when (negb (ok res)) (throw_Error (lit "Failed to load todos")) ;;
        data ← await (json res);
        setTodos (λ _, data))
       (λ e_message, setError e_message))
    (setLoading false).

(** [addTodo] reads [newTitle] from the render it was created in.
    [e.preventDefault()] acts on the DOM event only. *)
Definition addTodo (newTitle : jsstring) : Prog unit :=
  if negb (truthy (trim newTitle)) then Ret tt else
  setLoading true ;;
  setError (lit "") ;;
  try_finally
    (try_catch
       (res ← fetch (POST_todo (trim newTitle));
        when (negb (ok res)) (throw_Error (lit "Failed to add todo")) ;;
        created ← await (json res);
        setTodos (λ prev, created :: prev) ;;
        setNewTitle (lit ""))
       (λ e_message, setError e_message))
    (setLoading false).

Definition toggleTodo (id : TodoId) (completed : bool) : Prog unit :=
  setError (lit "") ;;
  try_catch
    ((* optimistic update *)
     setTodos (λ prev, List.map (λ t, if strict_eq (Todo.id t) id
                                      then Todo.with_completed completed t
                                      else t) prev) ;;
     res ← fetch (PATCH_completed id completed);
     when (negb (ok res)) (throw_Error (lit "Failed to update todo")))
    (λ e_message,
     setError e_message ;;
     (* revert on error *)
     setTodos (λ prev, List.map (λ t, if strict_eq (Todo.id t) id
                                      then Todo.with_completed (negb completed) t
                                      else t) prev)).

(** The call [fetchTodos()] in the two [catch] blocks below is not
    awaited.  It is the last statement of its handler and [fetchTodos]
    traps every error itself, so running it in sequence is what the
    component observes. *)
Definition renameTodo (id : TodoId) (title : jsstring) : Prog unit :=
  if negb (truthy (trim title)) then Ret tt else
  setError (lit "") ;;
  try_catch
    ((* optimistic *)
     setTodos (λ prev, List.map (λ t, if strict_eq (Todo.id t) id
                                      then Todo.with_title (trim title) t
                                      else t) prev) ;;
     res ← fetch (PATCH_title id (trim title));
     when (negb (ok res)) (throw_Error (lit "Failed to rename todo")))
    (λ e_message,
     setError e_message ;;
     fetchTodos).

Definition deleteTodo (id : TodoId) : Prog unit :=
  setError (lit "") ;;
  try_catch
    ((* optimistic; the source also binds [prev = todos], unused *)
     setTodos (λ prev, List.filter (λ t, negb (strict_eq (Todo.id t) id)) prev) ;;
     res ← fetch (DELETE_todo id);
     when (negb (ok res)) (throw_Error (lit "Failed to delete todo")))
    (λ e_message,
     setError e_message ;;
     fetchTodos).

(** [clearCompleted] reads [todos] from the render it was created in. *)
Definition clearCompleted (todos : list Todo.t) : Prog unit :=
  let completedTodos := List.filter (λ t, Todo.completed t) todos in
  if (length completedTodos =? 0)%nat then Ret tt else
  setError (lit "") ;;
  (* Optimistic remove *)
  let toDelete := List.map (λ t, Todo.id t) completedTodos in
  let prev := todos in
  setTodos (λ _, List.filter (λ t, negb (Todo.completed t)) prev) ;;
  try_catch
    (_ ← fetch_all (List.map (λ id, DELETE_todo id) toDelete);
     Ret tt)
    (λ _,
     setError (lit "Failed to clear completed") ;;
     setTodos (λ _, prev) (* revert *)).

(** ** Running a handler *)

(** The component's state together with the requests sent so far. *)
Record World : Type := mkWorld { state : State; requests : list Request }.

(** The remote service: the outcome of the [n]-th request sent. *)
Definition Oracle : Type := nat → ∀ r : Request, FetchOutcome r.

(** What other handlers do to the state while this one is suspended on
    its request number [n]. *)
Definition Interference : Type := nat → State → State.

(** Nothing else runs. *)
Definition quiet : Interference := λ _ s, s.

Inductive Completion (A : Type) : Type :=
| Returned (a : A)
| Threw (message : jsstring).
Arguments Returned {A} a.
Arguments Threw {A} message.

Fixpoint exec {A} (o : Oracle) (env : Interference) (p : Prog A) (w : World)
  : World * Completion A :=
  match p with
  | Ret a => (w, Returned a)
  | Throw m => (w, Threw m)
  | SetState u k => exec o env k (mkWorld (u (state w)) (requests w))
  | Fetch r k =>
      let n := length (requests w) in
      exec o env (k (o n r)) (mkWorld (env n (state w)) (requests w ++ [r]))
  | FetchAll rs k =>
      let n := length (requests w) in
      let outcomes := imap (λ i r, any_outcome r (o (n + i) r)) rs in
      exec o env (k (promise_all outcomes))
           (mkWorld (env n (state w)) (requests w ++ rs))
  end.

(** What the user interface does with the component. *)
Inductive Action : Type :=
| Mount                               (* useEffect(() => { fetchTodos() }, []) *)
| Submit                              (* onSubmit={addTodo} *)
| Toggle (id : TodoId) (checked : bool)     (* onToggle *)
| Rename (id : TodoId) (title : jsstring)   (* onRename *)
| Delete (id : TodoId)                      (* onDelete *)
| ClearCompleted.                     (* onClick={clearCompleted} *)

(** The handler an action calls, closed over the state of the render
    that created it. *)
Definition handler (rendered : State) (a : Action) : Prog unit :=
  match a with
  | Mount => fetchTodos
  | Submit => addTodo (newTitle rendered)
  | Toggle id checked => toggleTodo id checked
  | Rename id title => renameTodo id title
  | Delete id => deleteTodo id
  | ClearCompleted => clearCompleted (todos rendered)
  end.

(** Run an action to completion on a world whose render is up to date. *)
Definition dispatch (o : Oracle) (env : Interference) (a : Action) (w : World)
  : World * Completion unit :=
  exec o env (handler (state w) a) w.

End App.

(* ===================================================================== *)
(** * The item editor: component [TodoRow] *)
(* ===================================================================== *)

Module TodoRow.

(** The two [useState] cells of a row: the edit-mode flag and the draft. *)
Record State : Type := mkState { editing : bool; title : jsstring }.

(** The callbacks a row receives as props, as calls made upward. *)
Inductive Call : Type :=
| onToggle (checked : bool)
| onRename (title : jsstring)
| onDelete.

(** [handleKey]: the calls made upward, in order, and the next state.
    [todo] is the prop, [e_key] is [e.key]. *)
Definition handleKey (todo : Todo.t) (e_key : jsstring) (s : State)
  : list Call * State :=
  if bool_decide (e_key = lit "Enter") then
    ([onRename (title s)], mkState false (title s))
  else if bool_decide (e_key = lit "Escape") then
    ([], mkState false (Todo.title todo))
  else
    ([], s).

(** The state a row mounts with: [useState(false)], [useState(todo.title)]. *)
Definition init (todo : Todo.t) : State := mkState false (Todo.title todo).

(** [onClick={() => setEditing(true)}] on the title button. *)
Definition onClick_title (s : State) : list Call * State :=
  ([], mkState true (title s)).

(** [onChange={(e) => setTitle(e.target.value)}] on the editor's input;
    [value] is [e.target.value]. *)
Definition onChange_input (value : jsstring) (s : State) : list Call * State :=
  ([], mkState (editing s) value).

(** [onBlur={() => { setEditing(false); setTitle(todo.title) }}] *)
Definition onBlur_input (todo : Todo.t) (s : State) : list Call * State :=
  ([], mkState false (Todo.title todo)).

(** [onChange={(e) => onToggle(e.target.checked)}] on the checkbox;
    [checked] is [e.target.checked]. *)
Definition onChange_checkbox (checked : bool) (s : State) : list Call * State :=
  ([onToggle checked], s).

(** [onClick={onDelete}] on the delete button. *)
Definition onClick_delete (s : State) : list Call * State :=
  ([onDelete], s).

(** [useEffect(() => setTitle(todo.title), [todo.title])] when the row is
    rendered again: the effect runs only if [todo.title] differs from its
    value at the previous render. *)
Definition title_effect (previous todo : Todo.t) (s : State) : State :=
  if bool_decide (Todo.title previous = Todo.title todo) then s
  else mkState (editing s) (Todo.title todo).

(** What the user does to a row. *)
Inductive Event : Type :=
| ClickTitle
| Change (value : jsstring)
| KeyDown (e_key : jsstring)
| Blur
| CheckboxChange (checked : bool)
| ClickDelete.

(** The handler the row attaches to each event. *)
Definition handle (todo : Todo.t) (ev : Event) (s : State) : list Call * State :=
  match ev with
  | ClickTitle => onClick_title s
  | Change value => onChange_input value s
  | KeyDown e_key => handleKey todo e_key s
  | Blur => onBlur_input todo s
  | CheckboxChange checked => onChange_checkbox checked s
  | ClickDelete => onClick_delete s
  end.

(** A sequence of events on a row whose prop stays the same: the calls
    made upward, in order, and the final state. *)
Fixpoint run (todo : Todo.t) (evs : list Event) (s : State) : list Call * State :=
  match evs with
  | [] => ([], s)
  | ev :: evs' =>
      let '(calls, s') := handle todo ev s in
      let '(calls', s'') := run todo evs' s' in
      (calls ++ calls', s'')
  end.

End TodoRow.

(** The props [App] passes to the row of [todo]: each callback closes over
    [todo.id]. *)
Definition row_props (todo : Todo.t) (c : TodoRow.Call) : App.Action :=
  match c with
  | TodoRow.onToggle checked => App.Toggle (Todo.id todo) checked
  | TodoRow.onRename title => App.Rename (Todo.id todo) title
  | TodoRow.onDelete => App.Delete (Todo.id todo)
  end.

(* ===================================================================== *)
(** * What [App] renders *)
(* ===================================================================== *)

Module Render.

(** The body of the list: the three-way conditional of the JSX. *)
Inductive ListBody : Type :=
| LoadingPlaceholder              (* "Loading..." *)
| EmptyPlaceholder                (* "No tasks here. Add one above!" *)
| Rows (rows : list Todo.t).      (* filtered.map(todo => <TodoRow .../>) *)

Definition list_body (s : App.State) : ListBody :=
  if App.loading s && (length (App.todos s) =? 0) then LoadingPlaceholder
  else if length (App.filtered s) =? 0 then EmptyPlaceholder
  else Rows (App.filtered s).

(** [disabled={loading || !newTitle.trim()}] on the Add button. *)
Definition add_disabled (s : App.State) : bool :=
  App.loading s || negb (truthy (trim (App.newTitle s))).

End Render.

(* ===================================================================== *)
(** * Running a handler up to its first suspension *)
(* ===================================================================== *)

(** The synchronous prefix of a handler: the setter calls made before the
    first [await] (or before the handler ends), and what is left to run. *)
Fixpoint start {A} (p : App.Prog A) (s : App.State) : App.State * App.Prog A :=
  match p with
  | App.SetState u k => start k (u s)
  | _ => (s, p)
  end.

(* ===================================================================== *)
(** * Reference definitions, in the words of the specification *)
(* ===================================================================== *)

(** The predicate of a view filter: active keeps the items that are not
    completed, completed keeps the completed ones, all keeps every item. *)
Definition filter_predicate (f : App.Filter) (t : Todo.t) : bool :=
  match f with
  | App.All => true
  | App.Active => negb (Todo.completed t)
  | App.Completed => Todo.completed t
  end.

(** The number of items whose completed flag is false. *)
Fixpoint count_not_completed (l : list Todo.t) : nat :=
  match l with
  | [] => 0
  | t :: l' =>
      if Todo.completed t then count_not_completed l'
      else S (count_not_completed l')
  end.

(** A Load fails: the transport fails, the status is not a success, or the
    body cannot be parsed. *)
Definition load_fails (x : FetchOutcome GET_todos) : Prop :=
  match x with
  | Rejected _ => True
  | Fulfilled res => ok res = false ∨ ∃ m, json res = Rejected m
  end.

(** A request that reads no body fails: the transport fails or the status
    is not a success. *)
Definition request_fails {B} (x : Settled (Response B)) : Prop :=
  match x with
  | Rejected _ => True
  | Fulfilled res => ok res = false
  end.

(** A request that reads no body succeeds. *)
Definition request_succeeds {B} (x : Settled (Response B)) : Prop :=
  match x with
  | Rejected _ => False
  | Fulfilled res => ok res = true
  end.

(** The requests ClearCompleted sends for a collection: one DELETE per
    completed item, in the order of the collection. *)
Definition deletes_of_completed (todos : list Todo.t) : list Request :=
  List.map (λ id, DELETE_todo id)
    (List.map (λ t, Todo.id t) (List.filter (λ t, Todo.completed t) todos)).

(** A request whose body is read fails: the transport fails, the status is
    not a success, or the body cannot be parsed. *)
Definition body_request_fails {B} (x : Settled (Response B)) : Prop :=
  match x with
  | Rejected _ => True
  | Fulfilled res => ok res = false ∨ ∃ m, json res = Rejected m
  end.

(** A program that cannot end by throwing, whatever the service answers. *)
Fixpoint NoThrow {A} (p : App.Prog A) : Prop :=
  match p with
  | App.Ret _ => True
  | App.Throw _ => False
  | App.SetState _ k => NoThrow k
  | App.Fetch _ k => ∀ x, NoThrow (k x)
  | App.FetchAll _ k => ∀ x, NoThrow (k x)
  end.

(** A program all of whose state updates satisfy [Q], whatever the service
    answers. *)
Fixpoint AllUpdates {A} (Q : (App.State → App.State) → Prop) (p : App.Prog A) : Prop :=
  match p with
  | App.Ret _ | App.Throw _ => True
  | App.SetState u k => Q u ∧ AllUpdates Q k
  | App.Fetch _ k => ∀ x, AllUpdates Q (k x)
  | App.FetchAll _ k => ∀ x, AllUpdates Q (k x)
  end.

(** An update that leaves the view [f] of the state as it is. *)
Definition Keeps {V} (f : App.State → V) (u : App.State → App.State) : Prop :=
  ∀ s, f (u s) = f s.

(** A program all of whose requests satisfy [P], whatever the service
    answers. *)
Fixpoint AllRequests {A} (P : Request → Prop) (p : App.Prog A) : Prop :=
  match p with
  | App.Ret _ | App.Throw _ => True
  | App.SetState _ k => AllRequests P k
  | App.Fetch r k => P r ∧ ∀ x, AllRequests P (k x)
  | App.FetchAll rs k => Forall P rs ∧ ∀ x, AllRequests P (k x)
  end.

(** A request whose title, if it carries one, is not empty and has nothing
    left to trim. *)
Definition carries_trimmed_title (r : Request) : Prop :=
  match r with
  | POST_todo t | PATCH_title _ t => t ≠ [] ∧ trim t = t
  | GET_todos | PATCH_completed _ _ | DELETE_todo _ => True
  end.

(** An event of a row that makes no upward call and does not confirm:
    opening the editor, typing, a key other than Enter, losing focus. *)
Definition discardable (ev : TodoRow.Event) : Prop :=
  match ev with
  | TodoRow.ClickTitle | TodoRow.Change _ | TodoRow.Blur => True
  | TodoRow.KeyDown k => k ≠ lit "Enter"
  | TodoRow.CheckboxChange _ | TodoRow.ClickDelete => False
  end.

(* ===================================================================== *)
(** * Lemmas on strings and lists *)
(* ===================================================================== *)

Section Strings.

Implicit Types s : jsstring.

Lemma trimStart_nil_iff s :
  trimStart s = [] ↔ Forall (λ c, strippable c = true) s.
Proof.
  induction s as [|c s IH]; simpl.
  - split; [constructor | done].
  - destruct (strippable c) eqn:Hc.
    + rewrite IH. split.
      * intros H. by constructor.
      * by inversion 1.
    + split; [done |]. inversion 1; congruence.
Qed.

Lemma trimStart_strippable_inv s :
  Forall (λ c, strippable c = true) (trimStart s) →
  Forall (λ c, strippable c = true) s.
Proof.
  induction s as [|c s IH]; simpl; [done |].
  destruct (strippable c) eqn:Hc; [| done].
  intros H. constructor; auto.
Qed.

Lemma trimEnd_nil_iff s :
  trimEnd s = [] ↔ Forall (λ c, strippable c = true) s.
Proof.
  unfold trimEnd. split.
  - intros H. apply (f_equal (@rev N)) in H. rewrite rev_involutive in H.
    simpl in H. apply trimStart_nil_iff, Forall_rev in H.
    by rewrite rev_involutive in H.
  - intros H. apply Forall_rev, trimStart_nil_iff in H. by rewrite H.
Qed.

(** A title is empty after trimming exactly when it consists of white
    space and line terminators only. *)
Lemma trim_nil_iff s :
  trim s = [] ↔ Forall (λ c, strippable c = true) s.
Proof.
  unfold trim. rewrite trimEnd_nil_iff. split.
  - apply trimStart_strippable_inv.
  - intros H. apply trimStart_nil_iff in H. rewrite H. constructor.
Qed.

Lemma truthy_false_iff s : truthy s = false ↔ s = [].
Proof. by destruct s. Qed.

Lemma truthy_true_iff s : truthy s = true ↔ s ≠ [].
Proof. by destruct s. Qed.

End Strings.

Section Lists.

Context {A : Type}.
Implicit Types (l : list A) (p : A → bool).

Lemma filter_all_true l : List.filter (λ _, true) l = l.
Proof. induction l as [|x l IH]; simpl; [done | by rewrite IH]. Qed.

Lemma filter_none p l :
  Forall (λ x, p x = false) l → List.filter p l = [].
Proof.
  induction 1 as [|x l Hx _ IH]; simpl; [done |]. by rewrite Hx.
Qed.

Lemma filter_nil_none p l :
  List.filter p l = [] → Forall (λ x, p x = false) l.
Proof.
  induction l as [|x l IH]; simpl; [constructor |].
  destruct (p x) eqn:Hx; [done |]. intros H. constructor; auto.
Qed.

Lemma filter_sublist p l : List.filter p l `sublist_of` l.
Proof.
  induction l as [|x l IH]; simpl; [constructor |].
  destruct (p x); by constructor.
Qed.

Lemma filter_elem_of p l x : x ∈ List.filter p l ↔ x ∈ l ∧ p x = true.
Proof. rewrite !list_elem_of_In. apply filter_In. Qed.

Lemma filter_count_occ `{EqDecision A} p l x :
  count_occ (decide_rel (=)) (List.filter p l) x
  = if p x then count_occ (decide_rel (=)) l x else 0.
Proof.
  induction l as [|y l IH]; simpl.
  - by destruct (p x).
  - destruct (p y) eqn:Hy; simpl.
    + destruct (decide_rel eq y x) as [->|]; rewrite IH; [by rewrite Hy | done].
    + rewrite IH. destruct (decide_rel eq y x) as [->|]; [by rewrite Hy | done].
Qed.

Lemma lookup_map {B} (f : A → B) l i : List.map f l !! i = f <$> l !! i.
Proof.
  revert i. induction l as [|x l IH]; intros [|i]; simpl; auto.
Qed.

End Lists.

Lemma length_filter_not_completed (l : list Todo.t) :
  length (List.filter (λ t, negb (Todo.completed t)) l) = count_not_completed l.
Proof.
  induction l as [|t l IH]; simpl; [done |].
  destruct (Todo.completed t); simpl; by rewrite IH.
Qed.

Lemma strict_eq_true a b : strict_eq a b = true ↔ a = b.
Proof. unfold strict_eq. apply bool_decide_eq_true. Qed.

Lemma strict_eq_false a b : strict_eq a b = false ↔ a ≠ b.
Proof. unfold strict_eq. apply bool_decide_eq_false. Qed.

(* ===================================================================== *)
(** * Lemmas on running programs *)
(* ===================================================================== *)

(** Running a handler is running what is left of it after its synchronous
    prefix, from the state the prefix leaves. *)
Lemma exec_start {A} o env (p : App.Prog A) w :
  App.exec o env p w
  = App.exec o env (snd (start p (App.state w)))
      (App.mkWorld (fst (start p (App.state w))) (App.requests w)).
Proof.
  revert w. induction p as [a|m|u k IH|r k _|rs k _]; intros [s rq]; simpl;
    [reflexivity | reflexivity | | reflexivity | reflexivity].
  exact (IH (App.mkWorld (u s) rq)).
Qed.

(* ===================================================================== *)
(** * Derived values *)
(* ===================================================================== *)

(** C6: for every collection and filter value, [filtered] is the collection
    filtered by the predicate of the filter (active keeps the items that are
    not completed, completed keeps the completed ones, all keeps every
    item) and [remaining] is the number of items that are not completed; in
    particular, with the filter active and a collection of one completed
    and one active item (in either order), [filtered] is exactly the active
    item and [remaining] is 1. *)
Theorem filtered_remaining_spec :
  (∀ s : App.State,
      App.filtered s = List.filter (filter_predicate (App.filter s)) (App.todos s)
      ∧ App.remaining s = count_not_completed (App.todos s))
  ∧ (∀ (ia ic : TodoId) (ta tc nt e : jsstring) (ld : bool),
        let a := Todo.mk ia ta false in
        let c := Todo.mk ic tc true in
        App.filtered (App.mkState [c; a] nt App.Active ld e) = [a]
        ∧ App.remaining (App.mkState [c; a] nt App.Active ld e) = 1
        ∧ App.filtered (App.mkState [a; c] nt App.Active ld e) = [a]
        ∧ App.remaining (App.mkState [a; c] nt App.Active ld e) = 1).
Proof.
  split.
  - intros [l nt f ld e]. unfold App.filtered, App.remaining. simpl. split.
    + destruct f; simpl; [by rewrite filter_all_true | done | done].
    + apply length_filter_not_completed.
  - intros. repeat split.
Qed.

(* ===================================================================== *)
(** * Operations that do nothing *)
(* ===================================================================== *)

(** C7: when the draft of the new title consists of white space only (it is
    empty after trimming), Create sends no request and leaves the whole
    state (collection, loading flag, error message and the rest) as it
    was. *)
Theorem addTodo_whitespace_noop (o : App.Oracle) (env : App.Interference) (w : App.World) :
  Forall (λ c, strippable c = true) (App.newTitle (App.state w)) →
  App.dispatch o env App.Submit w = (w, App.Returned tt).
Proof.
  intros H. apply trim_nil_iff in H.
  unfold App.dispatch, App.handler, App.addTodo. by rewrite H.
Qed.

Lemma addTodo_whitespace_noop_witness :
  let w := App.mkWorld
             (App.mkState [Todo.mk (IdNum 1) (lit "a") false] (lit "  ")
                App.All false (lit "old error"))
             [GET_todos] in
  App.dispatch (λ _ _, Rejected (lit "offline")) App.quiet App.Submit w
  = (w, App.Returned tt).
Proof.
  intros w. apply (addTodo_whitespace_noop _ _ w). by repeat constructor.
Defined.

(** C8: when no item of the collection is completed, ClearCompleted sends
    no request and leaves the collection and the error message (indeed the
    whole state) as they were. *)
Theorem clearCompleted_nothing_completed_noop
    (o : App.Oracle) (env : App.Interference) (w : App.World) :
  Forall (λ t, Todo.completed t = false) (App.todos (App.state w)) →
  App.dispatch o env App.ClearCompleted w = (w, App.Returned tt).
Proof.
  intros H. pose proof (filter_none (λ t, Todo.completed t) _ H) as E.
  unfold App.dispatch, App.handler, App.clearCompleted.
  cbv zeta. by rewrite E.
Qed.

Lemma clearCompleted_nothing_completed_noop_witness :
  let w := App.mkWorld
             (App.mkState [Todo.mk (IdNum 1) (lit "a") false;
                           Todo.mk (IdStr (lit "x")) (lit "b") false]
                (lit "") App.All false (lit "old error"))
             [] in
  App.dispatch (λ _ _, Rejected (lit "offline")) App.quiet App.ClearCompleted w
  = (w, App.Returned tt).
Proof.
  intros w. apply (clearCompleted_nothing_completed_noop _ _ w).
  by repeat constructor.
Defined.

(* ===================================================================== *)
(** * Delete *)
(* ===================================================================== *)

(** C10: the optimistic step of Delete (the state the handler leaves when
    it suspends on its request) drops every item whose identifier is the
    given one, duplicates included, keeps every other item as often as it
    occurred, and keeps the remaining items in their order; the handler is
    then waiting for the DELETE of that identifier. *)
Theorem deleteTodo_optimistic_removal (s : App.State) (id : TodoId) :
  let s' := fst (start (App.deleteTodo id) s) in
  (∀ t, t ∈ App.todos s' → Todo.id t ≠ id)
  ∧ (∀ t, Todo.id t ≠ id →
          count_occ (decide_rel (=)) (App.todos s') t
          = count_occ (decide_rel (=)) (App.todos s) t)
  ∧ App.todos s' `sublist_of` App.todos s
  ∧ (∃ k, snd (start (App.deleteTodo id) s) = App.Fetch (DELETE_todo id) k).
Proof.
  simpl. repeat split.
  - intros t [_ Ht]%filter_elem_of. apply negb_true_iff, strict_eq_false in Ht. done.
  - intros t Ht. rewrite filter_count_occ.
    apply strict_eq_false in Ht. by rewrite Ht.
  - apply filter_sublist.
  - eexists. reflexivity.
Qed.

(* ===================================================================== *)
(** * Load *)
(* ===================================================================== *)

(** A failed Load never writes the collection, whatever other handlers did
    to the state while the request was in flight. *)
Lemma fetchTodos_failure_no_write (o : App.Oracle) (env : App.Interference) (w : App.World) :
  load_fails (o (length (App.requests w)) GET_todos) →
  let suspended := env (length (App.requests w)) (fst (start App.fetchTodos (App.state w))) in
  let w' := fst (App.exec o env App.fetchTodos w) in
  App.todos (App.state w') = App.todos suspended
  ∧ App.newTitle (App.state w') = App.newTitle suspended
  ∧ App.filter (App.state w') = App.filter suspended.
Proof.
  destruct w as [s rq]. simpl.
  destruct (o (length rq) GET_todos) as [[[] [data|m]]|m]; simpl;
    intros H; try done.
  destruct H as [H|[m H]]; discriminate H.
Qed.

(** C9: if a Load fails (transport failure, non-success status or
    unparsable body), the collection is exactly what it was when the Load
    started; the draft of the new title and the filter are untouched too,
    so only the error message and the loading flag can differ, and the
    loading flag ends cleared. *)
Theorem fetchTodos_failure_keeps_collection (o : App.Oracle) (w : App.World) :
  load_fails (o (length (App.requests w)) GET_todos) →
  let w' := fst (App.dispatch o App.quiet App.Mount w) in
  App.todos (App.state w') = App.todos (App.state w)
  ∧ App.newTitle (App.state w') = App.newTitle (App.state w)
  ∧ App.filter (App.state w') = App.filter (App.state w)
  ∧ App.loading (App.state w') = false
  ∧ App.requests w' = App.requests w ++ [GET_todos].
Proof.
  destruct w as [s rq]. unfold App.dispatch. simpl.
  destruct (o (length rq) GET_todos) as [[[] [data|m]]|m]; simpl;
    intros H; try done.
  destruct H as [H|[m H]]; discriminate H.
Qed.

Lemma fetchTodos_failure_keeps_collection_witness :
  let l := [Todo.mk (IdNum 1) (lit "a") true; Todo.mk (IdNum 2) (lit "b") false] in
  let w := App.mkWorld (App.mkState l (lit "draft") App.Active false (lit "")) [] in
  let o : App.Oracle := λ _ r, Fulfilled (mkResponse false (Rejected (lit "no body"))) in
  let w' := fst (App.dispatch o App.quiet App.Mount w) in
  App.todos (App.state w') = l
  ∧ App.newTitle (App.state w') = lit "draft"
  ∧ App.filter (App.state w') = App.Active
  ∧ App.loading (App.state w') = false
  ∧ App.requests w' = [GET_todos].
Proof.
  intros l w o. apply (fetchTodos_failure_keeps_collection o w).
  simpl. by left.
Defined.

(* ===================================================================== *)
(** * Rename *)
(* ===================================================================== *)

(** C5: after a successful Rename with a title that is not empty after
    trimming, the collection has the same length, every item with the given
    identifier has the trimmed title (its identifier and completed flag
    kept), and every other item is unchanged, at the same position. *)
Theorem renameTodo_success_frame
    (o : App.Oracle) (w : App.World) (id : TodoId) (title : jsstring) :
  trim title ≠ [] →
  request_succeeds (o (length (App.requests w)) (PATCH_title id (trim title))) →
  let w' := fst (App.dispatch o App.quiet (App.Rename id title) w) in
  length (App.todos (App.state w')) = length (App.todos (App.state w))
  ∧ ∀ i t, App.todos (App.state w) !! i = Some t →
           App.todos (App.state w') !! i
           = Some (if decide (Todo.id t = id)
                   then Todo.mk (Todo.id t) (trim title) (Todo.completed t)
                   else t).
Proof.
  intros Hne Hok. destruct w as [s rq]. unfold App.dispatch. simpl in *.
  unfold App.renameTodo. apply truthy_true_iff in Hne. rewrite Hne. simpl.
  destruct (o (length rq) (PATCH_title id (trim title))) as [[[] b]|m];
    simpl in *; try done.
  split; [apply length_map |].
  intros i t Ht. rewrite lookup_map, Ht. simpl. unfold strict_eq.
  destruct (decide (Todo.id t = id)) as [E|E];
    [rewrite (bool_decide_eq_true_2 _ E) | rewrite (bool_decide_eq_false_2 _ E)];
    reflexivity.
Qed.

Lemma renameTodo_success_frame_witness :
  let l := [Todo.mk (IdNum 1) (lit "a") true; Todo.mk (IdNum 2) (lit "b") false] in
  let w := App.mkWorld (App.mkState l (lit "") App.All false (lit "")) [] in
  let o : App.Oracle :=
    λ _ r, match r with
           | GET_todos => Rejected (lit "offline")
           | POST_todo _ => Rejected (lit "offline")
           | _ => Fulfilled (mkResponse true (Fulfilled tt))
           end in
  let w' := fst (App.dispatch o App.quiet (App.Rename (IdNum 2) (lit " x ")) w) in
  length (App.todos (App.state w')) = 2
  ∧ ∀ i t, l !! i = Some t →
           App.todos (App.state w') !! i
           = Some (if decide (Todo.id t = IdNum 2)
                   then Todo.mk (Todo.id t) (trim (lit " x ")) (Todo.completed t)
                   else t).
Proof.
  intros l w o.
  apply (renameTodo_success_frame o w (IdNum 2) (lit " x ")).
  - by vm_compute.
  - by vm_compute.
Defined.

(** The optimistic step of Rename applies the trimmed title and the request
    carries it. *)
Lemma renameTodo_start (s : App.State) (id : TodoId) (title : jsstring) :
  trim title ≠ [] →
  ∃ k, start (App.renameTodo id title) s
       = (App.mkState
            (List.map (λ t, if strict_eq (Todo.id t) id
                            then Todo.with_title (trim title) t else t)
                      (App.todos s))
            (App.newTitle s) (App.filter s) (App.loading s) (lit ""),
          App.Fetch (PATCH_title id (trim title)) k).
Proof.
  intros Hne. apply truthy_true_iff in Hne.
  unfold App.renameTodo. rewrite Hne. simpl. eexists. reflexivity.
Qed.

(** Rename with a title that is empty after trimming does nothing. *)
Lemma renameTodo_blank_noop o env w (id : TodoId) (title : jsstring) :
  trim title = [] →
  App.dispatch o env (App.Rename id title) w = (w, App.Returned tt).
Proof.
  intros H. unfold App.dispatch, App.handler, App.renameTodo. by rewrite H.
Qed.

(* ===================================================================== *)
(** * The item editor *)
(* ===================================================================== *)

(** C4, as claimed, fails: with a draft of two spaces the confirm action
    calls the Rename callback although the draft is empty after trimming,
    and the value it passes is the draft, not the trimmed draft. *)
Lemma handleKey_confirm_blank_draft_counterexample :
  let todo := Todo.mk (IdNum 1) (lit "a") false in
  let s := TodoRow.mkState true (lit "  ") in
  let calls := fst (TodoRow.handleKey todo (lit "Enter") s) in
  ¬ (((∃ v, TodoRow.onRename v ∈ calls) ↔ trim (TodoRow.title s) ≠ [])
     ∧ (∀ v, TodoRow.onRename v ∈ calls → v = trim (TodoRow.title s))).
Proof.
  intros todo s calls [[H _] _]. apply H; [| reflexivity].
  exists (lit "  "). by left.
Qed.

(** C4, amended: for every draft, the confirm action (Enter) calls the
    Rename callback exactly once, with the draft as typed, and leaves edit
    mode with the draft kept.  The emptiness check and the trimming are done
    by the list controller's Rename, which the callback reaches: it does
    nothing when the draft is empty after trimming, and otherwise applies
    the trimmed draft to the row's item and sends the trimmed draft. *)
Theorem handleKey_confirm_always_renames (todo : Todo.t) (s : TodoRow.State) :
  TodoRow.handleKey todo (lit "Enter") s
  = ([TodoRow.onRename (TodoRow.title s)], TodoRow.mkState false (TodoRow.title s))
  ∧ ∀ (o : App.Oracle) (env : App.Interference) (w : App.World),
      let a := row_props todo (TodoRow.onRename (TodoRow.title s)) in
      (trim (TodoRow.title s) = [] →
       App.dispatch o env a w = (w, App.Returned tt))
      ∧ (trim (TodoRow.title s) ≠ [] →
         ∃ k, start (App.handler (App.state w) a) (App.state w)
              = (App.mkState
                   (List.map (λ t, if strict_eq (Todo.id t) (Todo.id todo)
                                   then Todo.with_title (trim (TodoRow.title s)) t
                                   else t)
                             (App.todos (App.state w)))
                   (App.newTitle (App.state w)) (App.filter (App.state w))
                   (App.loading (App.state w)) (lit ""),
                 App.Fetch (PATCH_title (Todo.id todo) (trim (TodoRow.title s))) k)).
Proof.
  split; [reflexivity |].
  intros o env w a. split.
  - apply renameTodo_blank_noop.
  - apply renameTodo_start.
Qed.

Lemma handleKey_confirm_always_renames_witness :
  let todo := Todo.mk (IdNum 1) (lit "a") false in
  let s := TodoRow.mkState true (lit " b ") in
  let w := App.mkWorld (App.mkState [todo] (lit "") App.All false (lit "old")) [] in
  TodoRow.handleKey todo (lit "Enter") s
  = ([TodoRow.onRename (lit " b ")], TodoRow.mkState false (lit " b "))
  ∧ ∃ k, start (App.renameTodo (IdNum 1) (lit " b ")) (App.state w)
         = (App.mkState [Todo.mk (IdNum 1) (lit "b") false]
              (lit "") App.All false (lit ""),
            App.Fetch (PATCH_title (IdNum 1) (lit "b")) k).
Proof.
  intros todo s w.
  destruct (handleKey_confirm_always_renames todo s) as [H1 H2].
  split; [exact H1 |].
  destruct (H2 (λ _ _, Rejected (lit "offline")) App.quiet w) as [_ H3].
  apply H3. by vm_compute.
Defined.

(* ===================================================================== *)
(** * Toggle *)
(* ===================================================================== *)

(** What a failed Toggle leaves: every item with the given identifier
    carries the negation of the requested flag. *)
Lemma toggleTodo_failure_result (o : App.Oracle) (w : App.World) (id : TodoId) (c : bool) :
  request_fails (o (length (App.requests w)) (PATCH_completed id c)) →
  let w' := fst (App.dispatch o App.quiet (App.Toggle id c) w) in
  App.todos (App.state w')
  = List.map (λ t, if strict_eq (Todo.id t) id
                   then Todo.with_completed (negb c) t else t)
             (App.todos (App.state w)).
Proof.
  destruct w as [s rq]. unfold App.dispatch. simpl.
  assert (E : ∀ l : list Todo.t,
    List.map (λ t, if strict_eq (Todo.id t) id
                   then Todo.with_completed (negb c) t else t)
      (List.map (λ t, if strict_eq (Todo.id t) id
                      then Todo.with_completed c t else t) l)
    = List.map (λ t, if strict_eq (Todo.id t) id
                     then Todo.with_completed (negb c) t else t) l).
  { intros l. rewrite map_map. apply map_ext. intros t.
    destruct (strict_eq (Todo.id t) id) eqn:Ht; simpl; by rewrite Ht. }
  destruct (o (length rq) (PATCH_completed id c)) as [[[] b]|m]; simpl;
    intros H; try done; apply E.
Qed.

(** A failed Toggle restores the collection when the requested flag was
    the negation of the flag of every item with the given identifier, as it
    is when the call comes from the checkbox of a row with a unique
    identifier. *)
Lemma toggleTodo_failure_restores_flipped
    (o : App.Oracle) (w : App.World) (id : TodoId) (c : bool) :
  request_fails (o (length (App.requests w)) (PATCH_completed id c)) →
  (∀ t, t ∈ App.todos (App.state w) → Todo.id t = id → Todo.completed t = negb c) →
  App.todos (App.state (fst (App.dispatch o App.quiet (App.Toggle id c) w)))
  = App.todos (App.state w).
Proof.
  intros Hf Hflip. rewrite (toggleTodo_failure_result o w id c Hf).
  induction (App.todos (App.state w)) as [|t l IH]; simpl; [done |].
  rewrite IH by (intros t' Ht'; apply Hflip; by right).
  f_equal. destruct (strict_eq (Todo.id t) id) eqn:Ht; [| done].
  apply strict_eq_true in Ht. specialize (Hflip t (list_elem_of_here _ _) Ht).
  destruct t as [i ti cp]. simpl in *. by rewrite Hflip.
Qed.

(** C1, at a failing input: the collection holds one item, already
    completed; Toggle is called on it with the flag true and the request
    fails.  The item ends not completed, although it was completed before
    the operation began: the revert writes the negation of the requested
    flag, not the earlier value. *)
Theorem toggleTodo_failure_same_flag_not_restored :
  let item := Todo.mk (IdNum 1) (lit "a") true in
  let w := App.mkWorld (App.mkState [item] (lit "") App.All false (lit "")) [] in
  let o : App.Oracle := λ _ _, Rejected (lit "Failed to fetch") in
  let w' := fst (App.dispatch o App.quiet (App.Toggle (IdNum 1) true) w) in
  App.todos (App.state w') = [Todo.mk (IdNum 1) (lit "a") false]
  ∧ App.todos (App.state w') ≠ App.todos (App.state w)
  ∧ App.error (App.state w') = lit "Failed to fetch"
  ∧ App.requests w' = [PATCH_completed (IdNum 1) true].
Proof. by vm_compute. Qed.

(* ===================================================================== *)
(** * Delete, when the request fails *)
(* ===================================================================== *)

(** X19: a failed Delete sends the DELETE and then the GET of a full Load;
    when that Load succeeds, the state ends with the loaded collection and
    with an empty error message, since the Load clears the message the
    [catch] block has just set. *)
Lemma deleteTodo_failure_runs_load (o : App.Oracle) (w : App.World) (id : TodoId) :
  request_fails (o (length (App.requests w)) (DELETE_todo id)) →
  let w' := fst (App.dispatch o App.quiet (App.Delete id) w) in
  App.requests w' = App.requests w ++ [DELETE_todo id; GET_todos]
  ∧ ∀ data, o (S (length (App.requests w))) GET_todos
            = Fulfilled (mkResponse true (Fulfilled data)) →
            App.todos (App.state w') = data
            ∧ App.error (App.state w') = lit ""
            ∧ App.loading (App.state w') = false.
Proof.
  destruct w as [s rq]. unfold App.dispatch. simpl.
  assert (El : length (rq ++ [DELETE_todo id]) = S (length rq)).
  { rewrite length_app. simpl. lia. }
  destruct (o (length rq) (DELETE_todo id)) as [[[] b]|m]; simpl;
    intros H; try done; rewrite El.
  - split.
    + destruct (o (S (length rq)) GET_todos) as [[[] [data|m]]|m]; simpl;
        by rewrite <- app_assoc.
    + intros data ->. by simpl.
  - split.
    + destruct (o (S (length rq)) GET_todos) as [[[] [data|m']]|m']; simpl;
        by rewrite <- app_assoc.
    + intros data ->. by simpl.
Qed.

(** C3, at a failing input: the collection holds the item 5, Delete(5) is
    called, the DELETE is answered with a non-success status and the GET of
    the Load that follows succeeds.  The Load is triggered, but once both
    have completed the error message is empty, not the delete-failure
    message; had the Load failed too, the message would be the Load's. *)
Theorem deleteTodo_failure_message_cleared :
  let item := Todo.mk (IdNum 5) (lit "a") false in
  let w := App.mkWorld (App.mkState [item] (lit "") App.All false (lit "")) [] in
  let o (load_ok : bool) : App.Oracle :=
    λ _ r, match r with
           | GET_todos => Fulfilled (mkResponse load_ok (Fulfilled [item]))
           | POST_todo _ => Rejected (lit "Failed to fetch")
           | _ => Fulfilled (mkResponse false (Fulfilled tt))
           end in
  let w1 := fst (App.dispatch (o true) App.quiet (App.Delete (IdNum 5)) w) in
  let w2 := fst (App.dispatch (o false) App.quiet (App.Delete (IdNum 5)) w) in
  App.requests w1 = [DELETE_todo (IdNum 5); GET_todos]
  ∧ App.error (App.state w1) = lit ""
  ∧ App.error (App.state w1) ≠ lit "Failed to delete todo"
  ∧ App.todos (App.state w1) = [item]
  ∧ App.requests w2 = [DELETE_todo (IdNum 5); GET_todos]
  ∧ App.error (App.state w2) = lit "Failed to load todos"
  ∧ App.todos (App.state w2) = [].
Proof. by vm_compute. Qed.

(* ===================================================================== *)
(** * ClearCompleted, when a delete fails *)
(* ===================================================================== *)

Lemma promise_all_rejected {A} (ps : list (Settled A)) i m :
  ps !! i = Some (Rejected m) → ∃ m', promise_all ps = Rejected m'.
Proof.
  revert i. induction ps as [|[a|m0] ps IH]; intros [|i] H; simpl in *; try done.
  - destruct (IH i H) as [m' ->]. eauto.
  - eauto.
  - eauto.
Qed.

Lemma promise_all_fulfilled {A} (ps : list (Settled A)) :
  Forall (λ x, ∃ a, x = Fulfilled a) ps → ∃ l, promise_all ps = Fulfilled l.
Proof.
  induction 1 as [|x ps [a ->] _ [l IH]]; simpl; [eauto |].
  rewrite IH. eauto.
Qed.

(** X18: when a DELETE of ClearCompleted is rejected (a transport failure),
    the collection is restored to the snapshot taken before the operation
    and the error message is the generic one, whatever other handlers did
    to the state in the meantime (what they wrote to the collection is
    overwritten by the snapshot). *)
Lemma clearCompleted_rejection_restores
    (o : App.Oracle) (env : App.Interference) (w : App.World) i r m :
  deletes_of_completed (App.todos (App.state w)) !! i = Some r →
  o (length (App.requests w) + i) r = Rejected m →
  let w' := fst (App.dispatch o env App.ClearCompleted w) in
  App.todos (App.state w') = App.todos (App.state w)
  ∧ App.error (App.state w') = lit "Failed to clear completed"
  ∧ App.requests w' = App.requests w ++ deletes_of_completed (App.todos (App.state w)).
Proof.
  destruct w as [s rq]. unfold App.dispatch, deletes_of_completed. simpl.
  unfold App.clearCompleted. cbv zeta.
  intros Hr Ho.
  destruct (List.filter (λ t, Todo.completed t) (App.todos s)) as [|t l] eqn:El;
    [done |].
  change (length (t :: l) =? 0) with false. cbv iota.
  set (rs := List.map (λ id, DELETE_todo id) (List.map (λ t, Todo.id t) (t :: l))) in *.
  clearbody rs. simpl.
  destruct (promise_all_rejected
              (imap (λ i r, any_outcome r (o (length rq + i) r)) rs) i m) as [m' E].
  { rewrite list_lookup_imap, Hr. simpl. by rewrite Ho. }
  rewrite E. by simpl.
Qed.

(** When every DELETE of ClearCompleted is answered, whatever the status,
    nothing is reverted and no error message is set. *)
Lemma clearCompleted_answered_not_reverted (o : App.Oracle) (w : App.World) :
  (∃ t, t ∈ App.todos (App.state w) ∧ Todo.completed t = true) →
  (∀ i r, deletes_of_completed (App.todos (App.state w)) !! i = Some r →
          ∃ res, o (length (App.requests w) + i) r = Fulfilled res) →
  let w' := fst (App.dispatch o App.quiet App.ClearCompleted w) in
  App.todos (App.state w')
  = List.filter (λ t, negb (Todo.completed t)) (App.todos (App.state w))
  ∧ App.error (App.state w') = lit "".
Proof.
  destruct w as [s rq]. unfold App.dispatch, deletes_of_completed. simpl.
  unfold App.clearCompleted. cbv zeta.
  intros (t0 & Hin & Hc) Hall.
  destruct (List.filter (λ t, Todo.completed t) (App.todos s)) as [|t l] eqn:El.
  { apply filter_nil_none in El. rewrite Forall_forall in El.
    specialize (El t0 Hin). simpl in El. congruence. }
  change (length (t :: l) =? 0) with false. cbv iota.
  set (rs := List.map (λ id, DELETE_todo id) (List.map (λ t, Todo.id t) (t :: l))) in *.
  clearbody rs. simpl.
  destruct (promise_all_fulfilled
              (imap (λ i r, any_outcome r (o (length rq + i) r)) rs)) as [l' E].
  { apply Forall_lookup. intros i x Hx.
    rewrite list_lookup_imap in Hx.
    destruct (rs !! i) as [r|] eqn:Hr; [| done]. simpl in Hx.
    destruct (Hall i r Hr) as [res Hres]. rewrite Hres in Hx. simpl in Hx.
    injection Hx as <-. eauto. }
  rewrite E. by simpl.
Qed.

(** C2, at a failing input: both items of the collection are completed and
    both DELETE requests are answered with a non-success status.  The
    collection is not restored to the snapshot (it stays empty) and no error
    message is set: the handler never looks at the status of the
    responses, as the handler of Delete does. *)
Theorem clearCompleted_http_failure_not_restored :
  let l := [Todo.mk (IdNum 1) (lit "a") true; Todo.mk (IdNum 2) (lit "b") true] in
  let w := App.mkWorld (App.mkState l (lit "") App.All false (lit "")) [] in
  let o : App.Oracle := λ _ _, Fulfilled (mkResponse false (Rejected (lit "not JSON"))) in
  let w' := fst (App.dispatch o App.quiet App.ClearCompleted w) in
  App.requests w' = [DELETE_todo (IdNum 1); DELETE_todo (IdNum 2)]
  ∧ App.todos (App.state w') = []
  ∧ App.todos (App.state w') ≠ l
  ∧ App.error (App.state w') = lit ""
  ∧ App.error (App.state w') ≠ lit "Failed to clear completed".
Proof. by vm_compute. Qed.

(* ===================================================================== *)
(** * Structural lemmas on programs *)
(* ===================================================================== *)

Section Programs.

Context {A : Type}.
Implicit Types p : App.Prog A.

Lemma exec_NoThrow o env p w :
  NoThrow p → ∃ a, (App.exec o env p w).2 = App.Returned a.
Proof.
  revert w. induction p as [a|m|u k IH|r k IH|rs k IH]; intros w Hp; simpl in *;
    try done; eauto.
Qed.

(** A view of the state that no update of the program and no interfering
    handler changes is the same after the run. *)
Lemma exec_Keeps {V} (v : App.State → V) o env p w :
  AllUpdates (Keeps v) p → (∀ n s, v (env n s) = v s) →
  v (App.state (App.exec o env p w).1) = v (App.state w).
Proof.
  intros Hp Henv. revert w Hp.
  induction p as [a|m|u k IH|r k IH|rs k IH]; intros [s rq] Hp; simpl in *.
  - done.
  - done.
  - destruct Hp as [Hu Hk]. rewrite IH by done. simpl. apply Hu.
  - rewrite IH by done. simpl. apply Henv.
  - rewrite IH by done. simpl. apply Henv.
Qed.

End Programs.

(** Case analysis on everything the service can answer to a handler. *)
Ltac prog_step :=
  match goal with
  | |- ∀ _, _ => intro
  | |- _ ∧ _ => split
  | x : Settled _ |- _ => destruct x
  | x : FetchOutcome _ |- _ => destruct x
  | x : Response _ |- _ => destruct x as [[] ?]
  | |- context [if negb (truthy ?t) then _ else _] => destruct (truthy t)
  | |- context [if (length ?l =? 0) then _ else _] => destruct (length l =? 0)
  end.
Ltac prog_cases := repeat (simpl in *; try done; prog_step).

Ltac unfold_handlers :=
  unfold App.handler, App.addTodo, App.toggleTodo, App.renameTodo,
    App.deleteTodo, App.clearCompleted, App.fetchTodos.

Lemma handler_NoThrow (rendered : App.State) (a : App.Action) :
  NoThrow (App.handler rendered a).
Proof. destruct a; unfold_handlers; prog_cases. Qed.

Lemma handler_Keeps_filter (rendered : App.State) (a : App.Action) :
  AllUpdates (Keeps App.filter) (App.handler rendered a).
Proof. destruct a; unfold_handlers; prog_cases. Qed.

Lemma handler_Keeps_newTitle (rendered : App.State) (a : App.Action) :
  a ≠ App.Submit → AllUpdates (Keeps App.newTitle) (App.handler rendered a).
Proof. destruct a; unfold_handlers; prog_cases. Qed.

Lemma handler_Keeps_loading (rendered : App.State) (a : App.Action) :
  match a with
  | App.Toggle _ _ | App.ClearCompleted =>
      AllUpdates (Keeps App.loading) (App.handler rendered a)
  | _ => True
  end.
Proof. destruct a; unfold_handlers; prog_cases. Qed.

(* ===================================================================== *)
(** * Further properties of the list controller *)
(* ===================================================================== *)

(** X1: under the active and the completed filter, [filtered] splits the
    collection: the two views together are a permutation of it, each view
    (and the view under all) keeps the order of the collection, and
    [remaining] plus the number of completed items is its length. *)
Theorem filtered_partition (l : list Todo.t) (nt e : jsstring) (ld : bool) :
  let view f := App.filtered (App.mkState l nt f ld e) in
  view App.Active ++ view App.Completed ≡ₚ l
  ∧ (∀ f, view f `sublist_of` l)
  ∧ App.remaining (App.mkState l nt App.All ld e) + length (view App.Completed)
    = length l.
Proof.
  unfold App.filtered, App.remaining. simpl. repeat split.
  - induction l as [|t l IH]; simpl; [done |].
    destruct (Todo.completed t); simpl.
    + rewrite <- Permutation_middle. by constructor.
    + by constructor.
  - intros []; [done | apply filter_sublist | apply filter_sublist].
  - induction l as [|t l IH]; simpl; [done |].
    destruct (Todo.completed t); simpl; lia.
Qed.

(** X2: no handler ends by throwing: whatever the service answers and
    whatever other handlers do meanwhile, every action returns normally. *)
Theorem dispatch_never_throws
    (o : App.Oracle) (env : App.Interference) (a : App.Action) (w : App.World) :
  (App.dispatch o env a w).2 = App.Returned tt.
Proof.
  destruct (exec_NoThrow o env (App.handler (App.state w) a) w
              (handler_NoThrow _ a)) as [[] H].
  exact H.
Qed.

(** X3: no action changes the view filter, and no action but Submit changes
    the draft of the new title, whatever the service answers, provided the
    handlers running meanwhile leave them alone too. *)
Theorem dispatch_keeps_filter_and_draft
    (o : App.Oracle) (env : App.Interference) (a : App.Action) (w : App.World) :
  (∀ n s, App.filter (env n s) = App.filter s) →
  (∀ n s, App.newTitle (env n s) = App.newTitle s) →
  let w' := (App.dispatch o env a w).1 in
  App.filter (App.state w') = App.filter (App.state w)
  ∧ (a ≠ App.Submit → App.newTitle (App.state w') = App.newTitle (App.state w)).
Proof.
  intros Hf Hn. split.
  - apply exec_Keeps; [apply handler_Keeps_filter | done].
  - intros Ha. apply exec_Keeps; [by apply handler_Keeps_newTitle | done].
Qed.

Lemma dispatch_keeps_filter_and_draft_witness :
  let l := [Todo.mk (IdNum 1) (lit "a") true] in
  let w := App.mkWorld (App.mkState l (lit "draft") App.Completed false (lit "")) [] in
  let o : App.Oracle := λ _ _, Rejected (lit "offline") in
  let w' := (App.dispatch o App.quiet (App.Delete (IdNum 1)) w).1 in
  App.filter (App.state w') = App.Completed
  ∧ (App.Delete (IdNum 1) ≠ App.Submit → App.newTitle (App.state w') = lit "draft").
Proof.
  intros l w o.
  apply (dispatch_keeps_filter_and_draft o App.quiet (App.Delete (IdNum 1)) w);
    reflexivity.
Defined.

(** X4: Toggle and ClearCompleted never touch the loading flag, whatever
    the service answers (they do not block the Add button). *)
Theorem toggle_and_clear_keep_loading
    (o : App.Oracle) (env : App.Interference) (a : App.Action) (w : App.World) :
  (∀ n s, App.loading (env n s) = App.loading s) →
  (a = App.ClearCompleted ∨ ∃ id checked, a = App.Toggle id checked) →
  App.loading (App.state (App.dispatch o env a w).1) = App.loading (App.state w).
Proof.
  intros Henv Ha. apply exec_Keeps; [| done].
  pose proof (handler_Keeps_loading (App.state w) a) as H.
  destruct Ha as [->|(id & c & ->)]; exact H.
Qed.

Lemma toggle_and_clear_keep_loading_witness :
  let l := [Todo.mk (IdNum 1) (lit "a") true] in
  let w := App.mkWorld (App.mkState l (lit "") App.All true (lit "")) [] in
  let o : App.Oracle := λ _ _, Rejected (lit "offline") in
  App.loading (App.state (App.dispatch o App.quiet App.ClearCompleted w).1) = true.
Proof.
  intros l w o.
  apply (toggle_and_clear_keep_loading o App.quiet App.ClearCompleted w);
    [reflexivity | by left].
Defined.

(** ** Trimmed titles *)

Lemma trimStart_idem (s : jsstring) : trimStart (trimStart s) = trimStart s.
Proof.
  induction s as [|c s IH]; simpl; [done |].
  destruct (strippable c) eqn:Hc; [done |]. simpl. by rewrite Hc.
Qed.

Lemma trimStart_snoc (s : jsstring) (c : N) :
  strippable c = false → ∃ s1, trimStart (s ++ [c]) = s1 ++ [c].
Proof.
  intros Hc. induction s as [|x s IH]; simpl.
  - rewrite Hc. by exists [].
  - destruct (strippable x); [done |]. by exists (x :: s).
Qed.

Lemma trimEnd_idem (s : jsstring) : trimEnd (trimEnd s) = trimEnd s.
Proof. unfold trimEnd. by rewrite rev_involutive, trimStart_idem. Qed.

Lemma trimStart_trimEnd_trimStart (s : jsstring) :
  trimStart (trimEnd (trimStart s)) = trimEnd (trimStart s).
Proof.
  assert (H : ∀ y : jsstring, (∃ s0, trimStart s0 = y) → trimStart (trimEnd y) = trimEnd y).
  { intros [|c y] [s0 Hs0]; [done |].
    assert (Hc : strippable c = false).
    { clear -Hs0. induction s0 as [|x s0 IH]; simpl in Hs0; [done |].
      destruct (strippable x) eqn:Hx; [auto | congruence]. }
    unfold trimEnd. simpl.
    destruct (trimStart_snoc (rev y) c Hc) as [s1 ->].
    rewrite rev_app_distr. simpl. by rewrite Hc. }
  apply H. eauto.
Qed.

(** Trimming is idempotent: a trimmed title has nothing left to strip. *)
Lemma trim_idem (s : jsstring) : trim (trim s) = trim s.
Proof.
  unfold trim. by rewrite trimStart_trimEnd_trimStart, trimEnd_idem.
Qed.

(** ** Load and Create *)

(** X5: when a Load succeeds, the collection becomes the list the service
    returned, whatever the collection was and whatever other handlers wrote
    while the request was in flight; the loading flag ends cleared, exactly
    one GET is sent, and the error message is empty unless another handler
    set one meanwhile. *)
Theorem fetchTodos_success_replaces
    (o : App.Oracle) (env : App.Interference) (w : App.World) (data : list Todo.t) :
  o (length (App.requests w)) GET_todos = Fulfilled (mkResponse true (Fulfilled data)) →
  let w' := (App.dispatch o env App.Mount w).1 in
  App.todos (App.state w') = data
  ∧ App.loading (App.state w') = false
  ∧ App.requests w' = App.requests w ++ [GET_todos]
  ∧ ((∀ n s, App.error (env n s) = App.error s) → App.error (App.state w') = lit "").
Proof.
  destruct w as [s rq]. unfold App.dispatch. simpl. intros ->. simpl.
  repeat split. intros H. by rewrite H.
Qed.

Lemma fetchTodos_success_replaces_witness :
  let l := [Todo.mk (IdNum 1) (lit "a") true] in
  let data := [Todo.mk (IdNum 7) (lit "x") false; Todo.mk (IdNum 1) (lit "a") false] in
  let w := App.mkWorld (App.mkState l (lit "") App.All false (lit "old")) [] in
  let o : App.Oracle :=
    λ _ r, match r with
           | GET_todos => Fulfilled (mkResponse true (Fulfilled data))
           | _ => Rejected (lit "offline")
           end in
  let w' := (App.dispatch o App.quiet App.Mount w).1 in
  App.todos (App.state w') = data
  ∧ App.loading (App.state w') = false
  ∧ App.requests w' = [GET_todos]
  ∧ ((∀ n s, App.error (App.quiet n s) = App.error s) → App.error (App.state w') = lit "").
Proof.
  intros l data w o. apply (fetchTodos_success_replaces o App.quiet w data).
  reflexivity.
Defined.

(** X6: when Create succeeds, the created item the service returned is put
    in front of the collection that is current when the response arrives
    (writes made meanwhile by other handlers are kept), the draft is
    cleared, the loading flag ends cleared and exactly one POST, carrying
    the trimmed draft, is sent. *)
Theorem addTodo_success_prepends
    (o : App.Oracle) (env : App.Interference) (w : App.World) (created : Todo.t) :
  let draft := App.newTitle (App.state w) in
  let n := length (App.requests w) in
  trim draft ≠ [] →
  o n (POST_todo (trim draft)) = Fulfilled (mkResponse true (Fulfilled created)) →
  let suspended := env n (start (App.addTodo draft) (App.state w)).1 in
  let w' := (App.dispatch o env App.Submit w).1 in
  App.todos (App.state w') = created :: App.todos suspended
  ∧ App.newTitle (App.state w') = lit ""
  ∧ App.loading (App.state w') = false
  ∧ App.requests w' = App.requests w ++ [POST_todo (trim draft)].
Proof.
  destruct w as [s rq]. unfold App.dispatch. simpl.
  intros Hne Ho. apply truthy_true_iff in Hne.
  unfold App.addTodo. rewrite Hne. simpl. rewrite Ho. by simpl.
Qed.

Lemma addTodo_success_prepends_witness :
  let l := [Todo.mk (IdNum 1) (lit "a") true] in
  let created := Todo.mk (IdNum 2) (lit "milk") false in
  let w := App.mkWorld (App.mkState l (lit " milk ") App.All false (lit "old")) [] in
  let o : App.Oracle :=
    λ _ r, match r with
           | POST_todo _ => Fulfilled (mkResponse true (Fulfilled created))
           | _ => Rejected (lit "offline")
           end in
  let w' := (App.dispatch o App.quiet App.Submit w).1 in
  App.todos (App.state w') = created :: l
  ∧ App.newTitle (App.state w') = lit ""
  ∧ App.loading (App.state w') = false
  ∧ App.requests w' = [POST_todo (lit "milk")].
Proof.
  intros l created w o.
  apply (addTodo_success_prepends o App.quiet w created); by vm_compute.
Defined.

(** X7: when Create fails (transport failure, non-success status or
    unparsable body), nothing is inserted: the collection, the draft and the
    filter are as before, so the user can submit again; the loading flag
    ends cleared and the one request sent is the POST of the trimmed
    draft. *)
Theorem addTodo_failure_keeps_collection_and_draft (o : App.Oracle) (w : App.World) :
  let draft := App.newTitle (App.state w) in
  trim draft ≠ [] →
  body_request_fails (o (length (App.requests w)) (POST_todo (trim draft))) →
  let w' := (App.dispatch o App.quiet App.Submit w).1 in
  App.todos (App.state w') = App.todos (App.state w)
  ∧ App.newTitle (App.state w') = draft
  ∧ App.filter (App.state w') = App.filter (App.state w)
  ∧ App.loading (App.state w') = false
  ∧ App.requests w' = App.requests w ++ [POST_todo (trim draft)].
Proof.
  destruct w as [s rq]. unfold App.dispatch. simpl.
  intros Hne. apply truthy_true_iff in Hne.
  unfold App.addTodo. rewrite Hne. simpl.
  destruct (o (length rq) (POST_todo (trim (App.newTitle s))))
    as [[[] [created|m]]|m]; simpl; intros H; try done.
  destruct H as [H|[m H]]; discriminate H.
Qed.

Lemma addTodo_failure_keeps_collection_and_draft_witness :
  let l := [Todo.mk (IdNum 1) (lit "a") true] in
  let w := App.mkWorld (App.mkState l (lit " milk ") App.Active false (lit "")) [] in
  let o : App.Oracle := λ _ _, Rejected (lit "offline") in
  let w' := (App.dispatch o App.quiet App.Submit w).1 in
  App.todos (App.state w') = l
  ∧ App.newTitle (App.state w') = lit " milk "
  ∧ App.filter (App.state w') = App.Active
  ∧ App.loading (App.state w') = false
  ∧ App.requests w' = [POST_todo (lit "milk")].
Proof.
  intros l w o.
  apply (addTodo_failure_keeps_collection_and_draft o w); by vm_compute.
Defined.

(** X8: the Add button is disabled whenever the draft is blank or a Load or
    Create is pending; when it is enabled, Submit does send a request:
    exactly one POST, carrying the trimmed draft, which is not empty. *)
Theorem add_button_enabled_submit_sends
    (o : App.Oracle) (env : App.Interference) (w : App.World) :
  let draft := App.newTitle (App.state w) in
  (trim draft = [] ∨ App.loading (App.state w) = true ↔
   Render.add_disabled (App.state w) = true)
  ∧ (Render.add_disabled (App.state w) = false →
     trim draft ≠ []
     ∧ App.requests (App.dispatch o env App.Submit w).1
       = App.requests w ++ [POST_todo (trim draft)]).
Proof.
  destruct w as [s rq]. unfold Render.add_disabled, App.dispatch. simpl. split.
  - rewrite orb_true_iff, negb_true_iff, truthy_false_iff. tauto.
  - intros [_ H]%orb_false_iff. apply negb_false_iff in H.
    split; [by apply truthy_true_iff |].
    unfold App.addTodo. rewrite H. simpl.
    destruct (o (length rq) (POST_todo (trim (App.newTitle s))))
      as [[[] [created|m]]|m]; by simpl.
Qed.

Lemma add_button_enabled_submit_sends_witness :
  let w := App.mkWorld (App.mkState [] (lit " milk ") App.All false (lit "")) [] in
  let o : App.Oracle := λ _ _, Rejected (lit "offline") in
  trim (lit " milk ") ≠ []
  ∧ App.requests (App.dispatch o App.quiet App.Submit w).1 = [POST_todo (lit "milk")].
Proof.
  intros w o.
  destruct (add_button_enabled_submit_sends o App.quiet w) as [_ H].
  apply H. reflexivity.
Defined.

(** The requests a run adds are those of the program, appended to the log. *)
Lemma exec_AllRequests {A} (P : Request → Prop) o env (p : App.Prog A) w :
  AllRequests P p →
  ∃ new, App.requests (App.exec o env p w).1 = App.requests w ++ new ∧ Forall P new.
Proof.
  revert w. induction p as [a|m|u k IH|r k IH|rs k IH]; intros [s rq] Hp; simpl in *.
  - exists []. by rewrite app_nil_r.
  - exists []. by rewrite app_nil_r.
  - apply (IH (App.mkWorld (u s) rq) Hp).
  - destruct Hp as [Hr Hk].
    destruct (IH (o (length rq) r) (App.mkWorld (env (length rq) s) (rq ++ [r]))
                (Hk _)) as (new & -> & Hnew).
    exists (r :: new). simpl. rewrite <- app_assoc. split; [done | by constructor].
  - destruct Hp as [Hrs Hk].
    destruct (IH (promise_all
                    (imap (λ i r, any_outcome r (o (length rq + i) r)) rs))
                (App.mkWorld (env (length rq) s) (rq ++ rs)) (Hk _))
      as (new & -> & Hnew).
    exists (rs ++ new). simpl. rewrite <- app_assoc. split; [done |].
    by apply Forall_app.
Qed.

Lemma handler_carries_trimmed_titles (rendered : App.State) (a : App.Action) :
  AllRequests carries_trimmed_title (App.handler rendered a).
Proof.
  destruct a as [| |id c|id title|id|]; unfold_handlers.
  - prog_cases.
  - destruct (truthy (trim (App.newTitle rendered))) eqn:Ht; simpl; [| done].
    split; [| prog_cases].
    split; [by apply truthy_true_iff | apply trim_idem].
  - prog_cases.
  - destruct (truthy (trim title)) eqn:Ht; simpl; [| done].
    split; [| prog_cases].
    split; [by apply truthy_true_iff | apply trim_idem].
  - prog_cases.
  - destruct (length _ =? 0); simpl; [done |].
    split; [| prog_cases].
    apply Forall_forall. intros r Hr.
    apply list_elem_of_In, in_map_iff in Hr as (i & <- & _). done.
Qed.

(** X9: every title the component sends to the service, by Create (POST) or
    by Rename (PATCH), is not empty and has no white space or line
    terminator left to trim at either end: for every action and every
    answer of the service, each request in the log after the action was
    either there before or carries such a title (or none). *)
Theorem sent_titles_are_trimmed
    (o : App.Oracle) (env : App.Interference) (a : App.Action) (w : App.World)
    (r : Request) :
  r ∈ App.requests (App.dispatch o env a w).1 →
  r ∈ App.requests w ∨ carries_trimmed_title r.
Proof.
  unfold App.dispatch.
  destruct (exec_AllRequests carries_trimmed_title o env
              (App.handler (App.state w) a) w
              (handler_carries_trimmed_titles _ a)) as (new & -> & Hnew).
  rewrite elem_of_app. intros [H|H]; [by left | right].
  rewrite Forall_forall in Hnew. by apply Hnew.
Qed.

Lemma sent_titles_are_trimmed_witness :
  let w := App.mkWorld (App.mkState [] (lit "  buy milk ") App.All false (lit "")) [] in
  let o : App.Oracle := λ _ _, Rejected (lit "offline") in
  POST_todo (lit "buy milk") ∈ App.requests w
  ∨ carries_trimmed_title (POST_todo (lit "buy milk")).
Proof.
  intros w o.
  apply (sent_titles_are_trimmed o App.quiet App.Submit w).
  vm_compute. by left.
Defined.

(** ** Toggle *)

(** The collection a successful Toggle leaves is the optimistic one. *)
Lemma toggleTodo_success_result (o : App.Oracle) (w : App.World) (id : TodoId) (c : bool) :
  request_succeeds (o (length (App.requests w)) (PATCH_completed id c)) →
  let w' := (App.dispatch o App.quiet (App.Toggle id c) w).1 in
  App.todos (App.state w')
  = List.map (λ t, if strict_eq (Todo.id t) id then Todo.with_completed c t else t)
             (App.todos (App.state w))
  ∧ App.error (App.state w') = lit ""
  ∧ App.requests w' = App.requests w ++ [PATCH_completed id c].
Proof.
  destruct w as [s rq]. unfold App.dispatch. simpl.
  destruct (o (length rq) (PATCH_completed id c)) as [[[] b]|m]; by simpl.
Qed.

(** X10: after a successful Toggle the collection has the same length,
    every item with the given identifier carries the requested flag (its
    identifier and title kept) and every other item is unchanged, at the
    same position; the error message is empty and the one request sent is
    the PATCH of the flag. *)
Theorem toggleTodo_success_frame
    (o : App.Oracle) (w : App.World) (id : TodoId) (c : bool) :
  request_succeeds (o (length (App.requests w)) (PATCH_completed id c)) →
  let w' := (App.dispatch o App.quiet (App.Toggle id c) w).1 in
  length (App.todos (App.state w')) = length (App.todos (App.state w))
  ∧ (∀ i t, App.todos (App.state w) !! i = Some t →
            App.todos (App.state w') !! i
            = Some (if decide (Todo.id t = id)
                    then Todo.mk (Todo.id t) (Todo.title t) c
                    else t))
  ∧ App.error (App.state w') = lit ""
  ∧ App.requests w' = App.requests w ++ [PATCH_completed id c].
Proof.
  intros Hok. destruct (toggleTodo_success_result o w id c Hok) as (Ht & He & Hr).
  cbv zeta. rewrite Ht. split; [apply length_map |]. split; [| done].
  intros i t Hi. rewrite lookup_map, Hi. simpl. unfold strict_eq.
  destruct (decide (Todo.id t = id)) as [E|E];
    [rewrite (bool_decide_eq_true_2 _ E) | rewrite (bool_decide_eq_false_2 _ E)];
    reflexivity.
Qed.

Lemma toggleTodo_success_frame_witness :
  let l := [Todo.mk (IdNum 1) (lit "a") false; Todo.mk (IdNum 2) (lit "b") false] in
  let w := App.mkWorld (App.mkState l (lit "") App.All false (lit "old")) [] in
  let o : App.Oracle :=
    λ _ r, match r with
           | GET_todos => Rejected (lit "offline")
           | POST_todo _ => Rejected (lit "offline")
           | _ => Fulfilled (mkResponse true (Fulfilled tt))
           end in
  let w' := (App.dispatch o App.quiet (App.Toggle (IdNum 1) true) w).1 in
  length (App.todos (App.state w')) = 2
  ∧ (∀ i t, l !! i = Some t →
            App.todos (App.state w') !! i
            = Some (if decide (Todo.id t = IdNum 1)
                    then Todo.mk (Todo.id t) (Todo.title t) true
                    else t))
  ∧ App.error (App.state w') = lit ""
  ∧ App.requests w' = [PATCH_completed (IdNum 1) true].
Proof.
  intros l w o. apply (toggleTodo_success_frame o w (IdNum 1) true).
  by vm_compute.
Defined.

Lemma NoDup_map_elem_eq {A B} (f : A → B) (l : list A) x y :
  NoDup (List.map f l) → x ∈ l → y ∈ l → f x = f y → x = y.
Proof.
  induction l as [|z l IH]; simpl; intros Hnd Hx Hy Hf.
  - by apply elem_of_nil in Hx.
  - apply NoDup_cons in Hnd as [Hz Hnd].
    apply elem_of_cons in Hx as [->|Hx]; apply elem_of_cons in Hy as [->|Hy];
      try done.
    + exfalso. apply Hz. rewrite Hf. apply list_elem_of_In, in_map.
      by apply list_elem_of_In.
    + exfalso. apply Hz. rewrite <- Hf. apply list_elem_of_In, in_map.
      by apply list_elem_of_In.
    + by apply IH.
Qed.

(** X11: in a collection whose identifiers are distinct, a Toggle that
    comes from the checkbox of a row (it requests the negation of the flag
    the row shows) and fails leaves the collection exactly as it was. *)
Theorem toggleTodo_failure_from_checkbox_restores
    (o : App.Oracle) (w : App.World) (t : Todo.t) :
  let checked := negb (Todo.completed t) in
  NoDup (List.map Todo.id (App.todos (App.state w))) →
  t ∈ App.todos (App.state w) →
  request_fails (o (length (App.requests w)) (PATCH_completed (Todo.id t) checked)) →
  App.todos (App.state
               (App.dispatch o App.quiet (row_props t (TodoRow.onToggle checked)) w).1)
  = App.todos (App.state w).
Proof.
  intros checked Hnd Ht Hf. simpl.
  apply toggleTodo_failure_restores_flipped; [done |].
  intros t' Ht' Hid. unfold checked. rewrite negb_involutive.
  by rewrite (NoDup_map_elem_eq Todo.id _ t' t Hnd Ht' Ht Hid).
Qed.

Lemma toggleTodo_failure_from_checkbox_restores_witness :
  let t := Todo.mk (IdNum 2) (lit "b") true in
  let l := [Todo.mk (IdNum 1) (lit "a") false; t] in
  let w := App.mkWorld (App.mkState l (lit "") App.All false (lit "")) [] in
  let o : App.Oracle := λ _ _, Fulfilled (mkResponse false (Rejected (lit "no body"))) in
  App.todos (App.state
               (App.dispatch o App.quiet (row_props t (TodoRow.onToggle false)) w).1)
  = l.
Proof.
  intros t l w o.
  apply (toggleTodo_failure_from_checkbox_restores o w t).
  - apply (bool_decide_unpack _). by vm_compute.
  - apply (bool_decide_unpack _). by vm_compute.
  - by vm_compute.
Defined.

Lemma request_outcome_cases {B} (x : Settled (Response B)) :
  request_succeeds x ∨ request_fails x.
Proof. destruct x as [[[] b]|m]; simpl; auto. Qed.

Lemma map_other_ids {A} (key : A → TodoId) (f : A → A) (id : TodoId) (l : list A) :
  id ∉ List.map key l →
  List.map (λ t, if strict_eq (key t) id then f t else t) l = l.
Proof.
  induction l as [|t l IH]; simpl; [done |].
  intros H. apply not_elem_of_cons in H as [Ht Hl].
  rewrite IH by done. f_equal.
  destruct (strict_eq (key t) id) eqn:E; [| done].
  apply strict_eq_true in E. congruence.
Qed.

Lemma filter_other_ids {A} (key : A → TodoId) (id : TodoId) (l : list A) :
  id ∉ List.map key l →
  List.filter (λ t, negb (strict_eq (key t) id)) l = l.
Proof.
  induction l as [|t l IH]; simpl; [done |].
  intros H. apply not_elem_of_cons in H as [Ht Hl].
  destruct (strict_eq (key t) id) eqn:E; simpl.
  - apply strict_eq_true in E. congruence.
  - by rewrite IH.
Qed.

Lemma remaining_after_toggle (id : TodoId) (c : bool) (l : list Todo.t) :
  let l' := List.map (λ t, if strict_eq (Todo.id t) id
                           then Todo.with_completed c t else t) l in
  if c then count_not_completed l' ≤ count_not_completed l
  else count_not_completed l ≤ count_not_completed l'.
Proof.
  induction l as [|t l IH]; simpl in *; [by destruct c |].
  destruct (strict_eq (Todo.id t) id), c, (Todo.completed t); simpl; lia.
Qed.

(** X12: a successful Toggle that completes items never increases the
    number of items left, and one that reopens items never decreases it. *)
Theorem toggleTodo_success_remaining
    (o : App.Oracle) (w : App.World) (id : TodoId) (c : bool) :
  request_succeeds (o (length (App.requests w)) (PATCH_completed id c)) →
  let w' := (App.dispatch o App.quiet (App.Toggle id c) w).1 in
  if c then App.remaining (App.state w') ≤ App.remaining (App.state w)
  else App.remaining (App.state w) ≤ App.remaining (App.state w').
Proof.
  intros Hok. destruct (toggleTodo_success_result o w id c Hok) as (Ht & _ & _).
  cbv zeta. unfold App.remaining. rewrite Ht, !length_filter_not_completed.
  apply remaining_after_toggle.
Qed.

Lemma toggleTodo_success_remaining_witness :
  let l := [Todo.mk (IdNum 1) (lit "a") false; Todo.mk (IdNum 2) (lit "b") false] in
  let w := App.mkWorld (App.mkState l (lit "") App.All false (lit "")) [] in
  let o : App.Oracle := λ _ _, Fulfilled (mkResponse true (Rejected (lit "no body"))) in
  let w' := (App.dispatch o App.quiet (App.Toggle (IdNum 1) true) w).1 in
  App.remaining (App.state w') ≤ App.remaining (App.state w).
Proof.
  intros l w o. apply (toggleTodo_success_remaining o w (IdNum 1) true).
  by vm_compute.
Defined.

(** ** Rename, when the request fails *)

(** X13: a failed Rename sends the PATCH of the trimmed title and then the
    GET of a full Load.  When that Load succeeds the collection is the list
    the service returned (the optimistic title is discarded) and the error
    message is empty; when the Load fails too, the optimistic title stays
    in the collection. *)
Theorem renameTodo_failure_runs_load
    (o : App.Oracle) (w : App.World) (id : TodoId) (title : jsstring) :
  let n := length (App.requests w) in
  trim title ≠ [] →
  request_fails (o n (PATCH_title id (trim title))) →
  let w' := (App.dispatch o App.quiet (App.Rename id title) w).1 in
  App.requests w' = App.requests w ++ [PATCH_title id (trim title); GET_todos]
  ∧ (∀ data, o (S n) GET_todos = Fulfilled (mkResponse true (Fulfilled data)) →
             App.todos (App.state w') = data
             ∧ App.error (App.state w') = lit ""
             ∧ App.loading (App.state w') = false)
  ∧ (load_fails (o (S n) GET_todos) →
     App.todos (App.state w')
     = List.map (λ t, if strict_eq (Todo.id t) id
                      then Todo.with_title (trim title) t else t)
                (App.todos (App.state w))).
Proof.
  destruct w as [s rq]. unfold App.dispatch. simpl.
  intros Hne. apply truthy_true_iff in Hne. unfold App.renameTodo. rewrite Hne.
  simpl.
  assert (El : length (rq ++ [PATCH_title id (trim title)]) = S (length rq)).
  { rewrite length_app. simpl. lia. }
  destruct (o (length rq) (PATCH_title id (trim title))) as [[[] b]|m]; simpl;
    intros H; try done; rewrite El; (split; [| split]);
    try (intros data Hd; by rewrite Hd);
    destruct (o (S (length rq)) GET_todos) as [[[] [data|m']]|m']; simpl;
    try (by rewrite <- app_assoc);
    intros Hl; try done; destruct Hl as [Hl|[m'' Hl]]; discriminate Hl.
Qed.

Lemma renameTodo_failure_runs_load_witness :
  let l := [Todo.mk (IdNum 1) (lit "a") false] in
  let w := App.mkWorld (App.mkState l (lit "") App.All false (lit "")) [] in
  let o : App.Oracle := λ _ _, Rejected (lit "offline") in
  let w' := (App.dispatch o App.quiet (App.Rename (IdNum 1) (lit " b ")) w).1 in
  App.requests w' = [PATCH_title (IdNum 1) (lit "b"); GET_todos]
  ∧ App.todos (App.state w') = [Todo.mk (IdNum 1) (lit "b") false].
Proof.
  intros l w o.
  destruct (renameTodo_failure_runs_load o w (IdNum 1) (lit " b "))
    as (H1 & _ & H3); [by vm_compute | by vm_compute |].
  split; [exact H1 | apply H3; by vm_compute].
Defined.

(** The collection a successful Rename leaves is the optimistic one. *)
Lemma renameTodo_success_result
    (o : App.Oracle) (w : App.World) (id : TodoId) (title : jsstring) :
  trim title ≠ [] →
  request_succeeds (o (length (App.requests w)) (PATCH_title id (trim title))) →
  App.todos (App.state (App.dispatch o App.quiet (App.Rename id title) w).1)
  = List.map (λ t, if strict_eq (Todo.id t) id
                   then Todo.with_title (trim title) t else t)
             (App.todos (App.state w)).
Proof.
  destruct w as [s rq]. unfold App.dispatch. simpl.
  intros Hne. apply truthy_true_iff in Hne. unfold App.renameTodo. rewrite Hne.
  simpl.
  destruct (o (length rq) (PATCH_title id (trim title))) as [[[] b]|m]; by simpl.
Qed.

(** The collection a successful Delete leaves is the optimistic one. *)
Lemma deleteTodo_success_result (o : App.Oracle) (w : App.World) (id : TodoId) :
  request_succeeds (o (length (App.requests w)) (DELETE_todo id)) →
  let w' := (App.dispatch o App.quiet (App.Delete id) w).1 in
  App.todos (App.state w')
  = List.filter (λ t, negb (strict_eq (Todo.id t) id)) (App.todos (App.state w))
  ∧ App.requests w' = App.requests w ++ [DELETE_todo id].
Proof.
  destruct w as [s rq]. unfold App.dispatch. simpl.
  destruct (o (length rq) (DELETE_todo id)) as [[[] b]|m]; by simpl.
Qed.

(** ** An identifier that is not in the collection *)

(** X14: for an identifier that no item of the collection carries, Toggle
    leaves the collection unchanged whatever the service answers, and a
    successful Rename or Delete leaves it unchanged too; Delete still sends
    its request. *)
Theorem absent_id_keeps_collection (o : App.Oracle) (w : App.World) (id : TodoId) :
  let n := length (App.requests w) in
  let after a := (App.dispatch o App.quiet a w).1 in
  id ∉ List.map Todo.id (App.todos (App.state w)) →
  (∀ c, App.todos (App.state (after (App.Toggle id c))) = App.todos (App.state w))
  ∧ (∀ title, trim title ≠ [] →
              request_succeeds (o n (PATCH_title id (trim title))) →
              App.todos (App.state (after (App.Rename id title)))
              = App.todos (App.state w))
  ∧ (request_succeeds (o n (DELETE_todo id)) →
     App.todos (App.state (after (App.Delete id))) = App.todos (App.state w)
     ∧ App.requests (after (App.Delete id)) = App.requests w ++ [DELETE_todo id]).
Proof.
  intros n after Hid. split; [| split].
  - intros c. unfold after.
    destruct (request_outcome_cases (o n (PATCH_completed id c))) as [H|H].
    + destruct (toggleTodo_success_result o w id c H) as (-> & _).
      by apply map_other_ids.
    + rewrite (toggleTodo_failure_result o w id c H). by apply map_other_ids.
  - intros title Hne H. unfold after.
    rewrite (renameTodo_success_result o w id title Hne H).
    by apply map_other_ids.
  - intros H. unfold after.
    destruct (deleteTodo_success_result o w id H) as (-> & ->).
    split; [by apply filter_other_ids | done].
Qed.

Lemma absent_id_keeps_collection_witness :
  let l := [Todo.mk (IdNum 1) (lit "a") false; Todo.mk (IdNum 2) (lit "b") true] in
  let w := App.mkWorld (App.mkState l (lit "") App.All false (lit "")) [] in
  let o : App.Oracle := λ _ _, Fulfilled (mkResponse true (Rejected (lit "no body"))) in
  App.todos (App.state (App.dispatch o App.quiet (App.Toggle (IdNum 3) true) w).1) = l
  ∧ App.todos (App.state (App.dispatch o App.quiet (App.Delete (IdNum 3)) w).1) = l.
Proof.
  intros l w o.
  destruct (absent_id_keeps_collection o w (IdNum 3)) as (H1 & _ & H3).
  { apply (bool_decide_unpack _). by vm_compute. }
  split; [apply H1 | apply H3; by vm_compute].
Defined.

(** ** ClearCompleted *)

Lemma filter_filter_same {A} (p : A → bool) (l : list A) :
  List.filter p (List.filter p l) = List.filter p l.
Proof.
  induction l as [|x l IH]; simpl; [done |].
  destruct (p x) eqn:Hx; simpl; [by rewrite Hx, IH | done].
Qed.

Lemma filter_completed_of_active (l : list Todo.t) :
  List.filter (λ t, Todo.completed t)
    (List.filter (λ t, negb (Todo.completed t)) l) = [].
Proof.
  induction l as [|t l IH]; simpl; [done |].
  destruct (Todo.completed t) eqn:Ht; simpl; [done | by rewrite Ht].
Qed.

(** What ClearCompleted leaves, by the settlement of its [Promise.all]. *)
Lemma clearCompleted_result (o : App.Oracle) (env : App.Interference) (w : App.World) :
  let l := App.todos (App.state w) in
  let n := length (App.requests w) in
  let w' := (App.dispatch o env App.ClearCompleted w).1 in
  App.requests w' = App.requests w ++ deletes_of_completed l
  ∧ (w' = w
     ∨ App.todos (App.state w') = l
     ∨ App.state w' = env n (App.mkState
                               (List.filter (λ t, negb (Todo.completed t)) l)
                               (App.newTitle (App.state w)) (App.filter (App.state w))
                               (App.loading (App.state w)) (lit ""))).
Proof.
  destruct w as [s rq]. unfold App.dispatch, deletes_of_completed. simpl.
  unfold App.clearCompleted. cbv zeta.
  destruct (List.filter (λ t, Todo.completed t) (App.todos s)) as [|t l] eqn:El.
  { simpl. rewrite app_nil_r. auto. }
  change (length (t :: l) =? 0) with false. cbv iota.
  set (rs := List.map (λ id, DELETE_todo id) (List.map (λ t, Todo.id t) (t :: l))) in *.
  clearbody rs. simpl.
  destruct (promise_all (imap (λ i r, any_outcome r (o (length rq + i) r)) rs));
    simpl; auto.
Qed.

(** X15: whatever the service answers, ClearCompleted sends exactly one
    DELETE per completed item, in the order of the collection, and nothing
    else; their number is the length of the collection minus the number of
    items left. *)
Theorem clearCompleted_requests (o : App.Oracle) (env : App.Interference) (w : App.World) :
  let l := App.todos (App.state w) in
  App.requests (App.dispatch o env App.ClearCompleted w).1
  = App.requests w
    ++ List.map (λ t, DELETE_todo (Todo.id t)) (List.filter (λ t, Todo.completed t) l)
  ∧ length (List.filter (λ t, Todo.completed t) l) + App.remaining (App.state w)
    = length l.
Proof.
  cbv zeta. split.
  - destruct (clearCompleted_result o env w) as [-> _].
    unfold deletes_of_completed. by rewrite map_map.
  - unfold App.remaining.
    induction (App.todos (App.state w)) as [|t l IH]; simpl; [done |].
    destruct (Todo.completed t); simpl; lia.
Qed.

(** X16: ClearCompleted never changes the items that are not completed:
    whatever the service answers, the active view of the collection and the
    number of items left are the same after it as before. *)
Theorem clearCompleted_keeps_active_items (o : App.Oracle) (w : App.World) :
  let w' := (App.dispatch o App.quiet App.ClearCompleted w).1 in
  List.filter (λ t, negb (Todo.completed t)) (App.todos (App.state w'))
  = List.filter (λ t, negb (Todo.completed t)) (App.todos (App.state w))
  ∧ App.remaining (App.state w') = App.remaining (App.state w).
Proof.
  cbv zeta. unfold App.remaining.
  destruct (clearCompleted_result o App.quiet w) as [_ [->|[->| ->]]]; try done.
  unfold App.quiet. simpl. by rewrite filter_filter_same.
Qed.

(** X17: once a ClearCompleted has had all its DELETE requests answered, a
    second ClearCompleted finds nothing to clear: it sends no request and
    changes nothing, whatever the service would answer. *)
Theorem clearCompleted_twice_noop
    (o o2 : App.Oracle) (env2 : App.Interference) (w : App.World) :
  (∀ i r, deletes_of_completed (App.todos (App.state w)) !! i = Some r →
          ∃ res, o (length (App.requests w) + i) r = Fulfilled res) →
  let w' := (App.dispatch o App.quiet App.ClearCompleted w).1 in
  App.dispatch o2 env2 App.ClearCompleted w' = (w', App.Returned tt).
Proof.
  intros Hall w'.
  assert (Hnone : List.filter (λ t, Todo.completed t) (App.todos (App.state w')) = []).
  { destruct (List.filter (λ t, Todo.completed t) (App.todos (App.state w)))
      as [|t0 l0] eqn:El.
    - unfold w', App.dispatch. simpl App.handler.
      unfold App.clearCompleted. cbv zeta. rewrite El. simpl. exact El.
    - assert (Hex : ∃ t, t ∈ App.todos (App.state w) ∧ Todo.completed t = true).
      { exists t0. apply (filter_elem_of (λ t, Todo.completed t)).
        rewrite El. by left. }
      destruct (clearCompleted_answered_not_reverted o w Hex Hall) as [Ht _].
      unfold w'. rewrite Ht. apply filter_completed_of_active. }
  unfold App.dispatch at 1. simpl App.handler.
  unfold App.clearCompleted. cbv zeta. by rewrite Hnone.
Qed.

Lemma clearCompleted_twice_noop_witness :
  let l := [Todo.mk (IdNum 1) (lit "a") true; Todo.mk (IdNum 2) (lit "b") false] in
  let w := App.mkWorld (App.mkState l (lit "") App.All false (lit "")) [] in
  let o : App.Oracle := λ _ _, Fulfilled (mkResponse true (Rejected (lit "no body"))) in
  let w' := (App.dispatch o App.quiet App.ClearCompleted w).1 in
  App.dispatch o App.quiet App.ClearCompleted w' = (w', App.Returned tt).
Proof.
  intros l w o. apply (clearCompleted_twice_noop o o App.quiet w).
  intros i r _. eexists. reflexivity.
Defined.

Lemma clearCompleted_rejection_restores_witness :
  let l := [Todo.mk (IdNum 1) (lit "a") true; Todo.mk (IdNum 2) (lit "b") false] in
  let w := App.mkWorld (App.mkState l (lit "") App.All false (lit "")) [] in
  let o : App.Oracle := λ _ _, Rejected (lit "offline") in
  let env : App.Interference :=
    λ _ s, App.mkState [] (App.newTitle s) (App.filter s) (App.loading s) (App.error s) in
  let w' := (App.dispatch o env App.ClearCompleted w).1 in
  App.todos (App.state w') = l
  ∧ App.error (App.state w') = lit "Failed to clear completed"
  ∧ App.requests w' = [DELETE_todo (IdNum 1)].
Proof.
  intros l w o env.
  apply (clearCompleted_rejection_restores o env w 0 (DELETE_todo (IdNum 1))
           (lit "offline")); reflexivity.
Defined.

Lemma deleteTodo_failure_runs_load_witness :
  let l := [Todo.mk (IdNum 5) (lit "a") false] in
  let w := App.mkWorld (App.mkState l (lit "") App.All false (lit "")) [] in
  let o : App.Oracle :=
    λ _ r, match r with
           | GET_todos => Fulfilled (mkResponse true (Fulfilled l))
           | _ => Rejected (lit "offline")
           end in
  let w' := (App.dispatch o App.quiet (App.Delete (IdNum 5)) w).1 in
  App.requests w' = [DELETE_todo (IdNum 5); GET_todos]
  ∧ App.todos (App.state w') = l
  ∧ App.error (App.state w') = lit ""
  ∧ App.loading (App.state w') = false.
Proof.
  intros l w o.
  destruct (deleteTodo_failure_runs_load o w (IdNum 5)) as [H1 H2];
    [by vm_compute |].
  split; [exact H1 | apply H2; reflexivity].
Defined.

(* ===================================================================== *)
(** * Further properties of the item editor and of what is rendered *)
(* ===================================================================== *)

Lemma discardable_no_call (todo : Todo.t) (ev : TodoRow.Event) (s : TodoRow.State) :
  discardable ev → (TodoRow.handle todo ev s).1 = [].
Proof.
  destruct ev as [|v|k| |c|]; simpl; try done.
  intros Hk. unfold TodoRow.handleKey.
  rewrite (bool_decide_eq_false_2 _ Hk). by destruct (bool_decide _).
Qed.

Lemma run_discardable_no_call (todo : Todo.t) (evs : list TodoRow.Event) (s : TodoRow.State) :
  Forall discardable evs → (TodoRow.run todo evs s).1 = [].
Proof.
  intros H. revert s. induction H as [|ev evs Hev _ IH]; intros s; simpl; [done |].
  pose proof (discardable_no_call todo ev s Hev) as E.
  destruct (TodoRow.handle todo ev s) as [calls s1]. simpl in E. subst calls.
  specialize (IH s1). destruct (TodoRow.run todo evs s1) as [calls' s2].
  simpl in *. done.
Qed.

Lemma run_app (todo : Todo.t) (evs1 evs2 : list TodoRow.Event) (s : TodoRow.State) :
  TodoRow.run todo (evs1 ++ evs2) s
  = let '(c1, s1) := TodoRow.run todo evs1 s in
    let '(c2, s2) := TodoRow.run todo evs2 s1 in
    (c1 ++ c2, s2).
Proof.
  revert s. induction evs1 as [|ev evs1 IH]; intros s; simpl.
  - by destruct (TodoRow.run todo evs2 s).
  - destruct (TodoRow.handle todo ev s) as [c s1]. rewrite IH.
    destruct (TodoRow.run todo evs1 s1) as [c1 s2].
    destruct (TodoRow.run todo evs2 s2) as [c2 s3]. by rewrite app_assoc.
Qed.

(** X20: whatever the user did in the editor short of confirming (opening
    it, typing, pressing keys other than Enter, leaving it), pressing
    Escape or moving the focus away discards it: over the whole sequence no
    callback is invoked and the row is back in the state it mounted with
    (not editing, draft equal to the item's title). *)
Theorem editor_discard_round_trip
    (todo : Todo.t) (evs : list TodoRow.Event) (final : TodoRow.Event)
    (s : TodoRow.State) :
  Forall discardable evs →
  final = TodoRow.KeyDown (lit "Escape") ∨ final = TodoRow.Blur →
  TodoRow.run todo (evs ++ [final]) s = ([], TodoRow.init todo).
Proof.
  intros Hevs Hfinal. rewrite run_app.
  pose proof (run_discardable_no_call todo evs s Hevs) as E.
  destruct (TodoRow.run todo evs s) as [c1 s1]. simpl in E. subst c1.
  destruct Hfinal as [-> | ->]; reflexivity.
Qed.

Lemma editor_discard_round_trip_witness :
  let todo := Todo.mk (IdNum 1) (lit "a") false in
  TodoRow.run todo
    ([TodoRow.ClickTitle; TodoRow.Change (lit "ab"); TodoRow.KeyDown (lit "Tab");
      TodoRow.Change (lit "abc")] ++ [TodoRow.KeyDown (lit "Escape")])
    (TodoRow.init todo)
  = ([], TodoRow.init todo).
Proof.
  intros todo. apply (editor_discard_round_trip todo).
  - repeat constructor. by vm_compute.
  - by left.
Defined.

(** X21: what follows a confirm (Enter) with draft [d] on the row of the
    item at position [i].  If [d] is blank, Rename does nothing, the item's
    title does not change, the title effect does not run, and the row keeps
    the blank draft.  If [d] is not blank and the request succeeds, the item
    at position [i] gets the trimmed draft as its title; when the row is
    rendered with it, the draft becomes the trimmed draft, unless the
    trimmed draft is the title the item already had: then the effect does
    not run and the draft stays as typed. *)
Theorem confirm_then_rerender
    (o : App.Oracle) (w : App.World) (i : nat) (todo : Todo.t) (d : jsstring) :
  App.todos (App.state w) !! i = Some todo →
  let s1 := (TodoRow.handleKey todo (lit "Enter") (TodoRow.mkState true d)).2 in
  let a := row_props todo (TodoRow.onRename d) in
  let w' := (App.dispatch o App.quiet a w).1 in
  (trim d = [] →
   w' = w ∧ TodoRow.title_effect todo todo s1 = TodoRow.mkState false d)
  ∧ (trim d ≠ [] →
     request_succeeds (o (length (App.requests w)) (PATCH_title (Todo.id todo) (trim d))) →
     let todo' := Todo.with_title (trim d) todo in
     App.todos (App.state w') !! i = Some todo'
     ∧ TodoRow.title_effect todo todo' s1
       = TodoRow.mkState false
           (if bool_decide (Todo.title todo = trim d) then d else trim d)).
Proof.
  intros Hi s1 a w'. split.
  - intros Hblank. split.
    + unfold w', a. simpl. by rewrite renameTodo_blank_noop.
    + unfold TodoRow.title_effect. by rewrite bool_decide_eq_true_2.
  - intros Hne Hok. cbv zeta. split.
    + unfold w', a. simpl.
      rewrite (renameTodo_success_result o w (Todo.id todo) d Hne Hok).
      rewrite lookup_map, Hi. simpl.
      by rewrite (proj2 (strict_eq_true _ _) eq_refl).
    + unfold TodoRow.title_effect. simpl. by destruct (bool_decide _).
Qed.

Lemma confirm_then_rerender_witness :
  let todo := Todo.mk (IdNum 1) (lit "a") false in
  let w := App.mkWorld (App.mkState [todo] (lit "") App.All false (lit "")) [] in
  let o : App.Oracle := λ _ _, Fulfilled (mkResponse true (Rejected (lit "no body"))) in
  let s1 := (TodoRow.handleKey todo (lit "Enter") (TodoRow.mkState true (lit "a "))).2 in
  let w' := (App.dispatch o App.quiet (row_props todo (TodoRow.onRename (lit "a "))) w).1 in
  App.todos (App.state w') !! 0 = Some todo
  ∧ TodoRow.title_effect todo todo s1 = TodoRow.mkState false (lit "a ").
Proof.
  intros todo w o.
  destruct (confirm_then_rerender o w 0 todo (lit "a ")) as [_ H];
    [reflexivity |].
  apply H; by vm_compute.
Defined.

(** X22: what the list shows.  The loading placeholder appears exactly when
    a Load or Create is pending and the collection is empty; as soon as
    some item passes the filter, the rows are shown, loading or not, and
    they are exactly [filtered], never empty and in the order of the
    collection. *)
Theorem list_body_cases (s : App.State) :
  (Render.list_body s = Render.LoadingPlaceholder
   ↔ App.loading s = true ∧ App.todos s = [])
  ∧ (App.filtered s ≠ [] → Render.list_body s = Render.Rows (App.filtered s))
  ∧ (∀ rows, Render.list_body s = Render.Rows rows →
             rows = App.filtered s ∧ rows ≠ [] ∧ rows `sublist_of` App.todos s).
Proof.
  assert (Hsub : App.filtered s `sublist_of` App.todos s).
  { unfold App.filtered. destruct (App.filter s); [done | | ]; apply filter_sublist. }
  unfold Render.list_body. split; [| split].
  - destruct (App.loading s), (App.todos s) as [|t l] eqn:El; simpl;
      try destruct (length (App.filtered s) =? 0); split; try done;
      try (intros [? ?]; done).
  - intros Hne.
    destruct (App.filtered s) as [|t l] eqn:Ef; [done |].
    destruct (App.todos s) as [|t' l'] eqn:El.
    { apply sublist_nil_r in Hsub. done. }
    simpl. by rewrite andb_false_r.
  - intros rows.
    destruct (App.loading s && (length (App.todos s) =? 0)); [done |].
    destruct (App.filtered s) as [|t l] eqn:Ef; simpl; [done |].
    intros [= <-]. done.
Qed.
